(** * Mod manager: confined file management and the mod store

    A shallow embedding of the Express service of [server.js]: the path
    confiner [safePath], the mod store handlers (list, upload, delete,
    toggle), the file tree handlers (list, read, rename, delete, upload)
    and the status probe.  Handlers are state-passing functions over a model
    of the disk in which a call may throw.

    JavaScript strings are modelled by [string]; the operations used by the
    service ([startsWith], [endsWith], [replace] with a string pattern,
    [toLowerCase]) act on ASCII here.  Node's [path] module is modelled for
    POSIX at the level of path segments. *)

From Stdlib Require Import ZArith Ascii String Permutation Sorted Lia.
From stdpp Require Import gmap strings list fin_maps pretty.

Local Open Scope string_scope.
Local Open Scope Z_scope.

(** ** JavaScript string operations *)

Module JsString.

(** [s.startsWith(p)] *)
Fixpoint startsWith (s p : string) {struct p} : bool :=
  match p with
  | EmptyString => true
  | String c p' =>
      match s with
      | EmptyString => false
      | String d s' => if Ascii.eqb c d then startsWith s' p' else false
      end
  end.

(** [s.endsWith(p)]: some suffix of [s] is [p]. *)
Fixpoint endsWith (s p : string) : bool :=
  if String.eqb s p then true
  else match s with
       | EmptyString => false
       | String _ s' => endsWith s' p
       end.

(** [s.slice(n)] *)
Fixpoint drop (n : nat) (s : string) : string :=
  match n, s with
  | O, _ => s
  | S n', String _ s' => drop n' s'
  | S _, EmptyString => EmptyString
  end.

(** [s.replace(pat, rep)] with a string pattern: only the first occurrence
    of [pat], scanning from the left, is replaced. *)
Fixpoint replace (s pat rep : string) : string :=
  if startsWith s pat then rep +:+ drop (String.length pat) s
  else match s with
       | EmptyString => EmptyString
       | String c s' => String c (replace s' pat rep)
       end.

Definition lower_ascii (c : ascii) : ascii :=
  let n := nat_of_ascii c in
  if ((65 <=? n) && (n <=? 90))%nat then ascii_of_nat (n + 32) else c.

(** [s.toLowerCase()] on ASCII letters. *)
Fixpoint toLowerCase (s : string) : string :=
  match s with
  | EmptyString => EmptyString
  | String c s' => String (lower_ascii c) (toLowerCase s')
  end.

(** [s.includes(pat)] *)
Fixpoint includes (s pat : string) : bool :=
  if startsWith s pat then true
  else match s with
       | EmptyString => false
       | String _ s' => includes s' pat
       end.

(** [s.includes("/")] *)
Fixpoint has_slash (s : string) : bool :=
  match s with
  | EmptyString => false
  | String c s' => if Ascii.eqb c "/" then true else has_slash s'
  end.

End JsString.
Import JsString.

(** ** Node's [path] module (POSIX) *)

Module Path.

(** The segments between the separators of [s]; [split "/a//b"] is
    [["", "a", "", "b"]]. *)
Fixpoint split (s : string) : list string :=
  match s with
  | EmptyString => [EmptyString]
  | String c s' =>
      if Ascii.eqb c "/" then EmptyString :: split s'
      else match split s' with
           | h :: t => String c h :: t
           | [] => [String c EmptyString]
           end
  end.

Fixpoint join_segs (l : list string) : string :=
  match l with
  | [] => EmptyString
  | [x] => x
  | x :: rest => x +:+ "/" +:+ join_segs rest
  end.

(** One step of [normalizeString]: [stack] holds the segments kept so far,
    innermost first. Empty and ["."] segments are dropped; [".."] removes
    the segment before it, unless there is none or it is itself a kept
    [".."], in which case it is kept only when [allowAboveRoot]. *)
Definition norm_step (allowAboveRoot : bool) (stack : list string) (seg : string)
  : list string :=
  if String.eqb seg "" || String.eqb seg "." then stack
  else if String.eqb seg ".." then
    match stack with
    | top :: below =>
        if String.eqb top ".." then
          (if allowAboveRoot then seg :: stack else stack)
        else below
    | [] => if allowAboveRoot then [seg] else []
    end
  else seg :: stack.

Definition norm_segs (allowAboveRoot : bool) (segs : list string) : list string :=
  List.rev (fold_left (norm_step allowAboveRoot) segs []).

Definition normalizeString (p : string) (allowAboveRoot : bool) : string :=
  join_segs (norm_segs allowAboveRoot (split p)).

Definition isAbsolute (p : string) : bool := startsWith p "/".

(** The loop of [path.resolve]: arguments are taken from the right until an
    absolute one is met; the working directory comes last. *)
Fixpoint resolve_loop (rev_args : list string) (acc : string) : string * bool :=
  match rev_args with
  | [] => (acc, false)
  | p :: rest =>
      if String.eqb p "" then resolve_loop rest acc
      else
        let acc' := p +:+ "/" +:+ acc in
        if isAbsolute p then (acc', true) else resolve_loop rest acc'
  end.

(** [path.resolve(...args)] in a process whose working directory is [cwd]. *)
Definition resolve (cwd : string) (args : list string) : string :=
  let '(resolvedPath, resolvedAbsolute) :=
    resolve_loop (List.rev args ++ [cwd])%list "" in
  let n := normalizeString resolvedPath (negb resolvedAbsolute) in
  if resolvedAbsolute then "/" +:+ n
  else if String.eqb n "" then "." else n.

(** [path.normalize(p)] *)
Definition normalize (p : string) : string :=
  if String.eqb p "" then "."
  else
    let abs := isAbsolute p in
    let trailing := endsWith p "/" in
    let n := normalizeString p (negb abs) in
    if String.eqb n "" then
      (if abs then "/" else if trailing then "./" else ".")
    else
      let n' := if trailing then n +:+ "/" else n in
      if abs then "/" +:+ n' else n'.

(** [path.join(...args)]: the non-empty arguments joined by the separator,
    then normalized. *)
Definition join (args : list string) : string :=
  match List.filter (fun a => negb (String.eqb a "")) args with
  | [] => "."
  | l => normalize (join_segs l)
  end.

(** The last non-empty segment of a path. *)
Definition last_segment (p : string) : string :=
  List.last (List.filter (fun a => negb (String.eqb a "")) (split p)) "".

(** [path.basename(p)] *)
Definition basename (p : string) : string := last_segment p.

(** The suffix of [s] that starts at its last dot, if it has one. *)
Fixpoint last_dot_suffix (s : string) : option string :=
  match s with
  | EmptyString => None
  | String c s' =>
      match last_dot_suffix s' with
      | Some t => Some t
      | None => if Ascii.eqb c "." then Some s else None
      end
  end.

(** [path.extname(p)]: the part of the last segment from its last dot on;
    empty when there is no dot, when the only dot is the first character of
    the segment, and for the segment [".."]. *)
Definition extname (p : string) : string :=
  match last_segment p with
  | EmptyString => ""
  | String c rest =>
      match last_dot_suffix rest with
      | Some t => if String.eqb (String c rest) ".." then "" else t
      | None => ""
      end
  end.




End Path.

(** ** Configuration *)

Record config := {
  cwd : string;          (* process.cwd() *)
  MODS_DIR : string;
  DATA_DIR : string;
}.

Definition default_config : config :=
  {| cwd := "/app"; MODS_DIR := "/app/mods"; DATA_DIR := "/app/data" |}.

(** ** The path confiner *)

(** [rel || ""] *)
Definition or_empty (rel : option string) : string :=
  match rel with
  | Some r => r
  | None => ""
  end.

(** [safePath(base, rel)]; [None] is the [null] result. *)
Definition safePath (cfg : config) (base : string) (rel : option string)
  : option string :=
  let full := Path.resolve (cwd cfg) [base; or_empty rel] in
  if negb (startsWith full (Path.resolve (cwd cfg) [base])) then None
  else Some full.

(** ** The file system

    The state of the disk: a finite map from absolute paths, given as their
    segments below the root directory, to nodes.  There are no symbolic
    links; time stamps and directory sizes are data carried by the nodes. *)

Inductive node :=
| File (content : string) (mtime : Z)
| Dir (dsize : Z) (mtime : Z).

Abbreviation filesystem := (gmap (list string) node).

(** What [fs.statSync] reports. *)
Record stats := {
  st_isDirectory : bool;
  st_size : Z;
  st_mtime : Z;
}.

(** The size of a file is the length of its content. *)
Definition stat_of (n : node) : stats :=
  match n with
  | File c m =>
      {| st_isDirectory := false; st_size := Z.of_nat (String.length c); st_mtime := m |}
  | Dir s m => {| st_isDirectory := true; st_size := s; st_mtime := m |}
  end.

Definition is_dir (n : node) : bool :=
  match n with
  | Dir _ _ => true
  | File _ _ => false
  end.

(** Handlers run in a state monad over the disk in which a call may throw. *)
Inductive outcome (A : Type) :=
| Ret (a : A)
| Throw (message : string).
Arguments Ret {A} a.
Arguments Throw {A} message.

Definition M (A : Type) : Type := filesystem -> outcome A * filesystem.

#[global] Instance M_ret : MRet M := fun A a fs => (Ret a, fs).
#[global] Instance M_bind : MBind M := fun A B f m fs =>
  match m fs with
  | (Ret a, fs') => f a fs'
  | (Throw e, fs') => (Throw e, fs')
  end.

Definition throw {A} (e : string) : M A := fun fs => (Throw e, fs).

(** [try { body } catch (err) { handler(err.message) }] *)
Definition try_catch {A} (body : M A) (handler : string -> M A) : M A := fun fs =>
  match body fs with
  | (Ret a, fs') => (Ret a, fs')
  | (Throw e, fs') => handler e fs'
  end.

(** A path as the path of its parent and an entry name. *)
Fixpoint split_last (k : list string) : option (list string * string) :=
  match k with
  | [] => None
  | [x] => Some ([], x)
  | x :: rest =>
      match split_last rest with
      | Some (pre, l) => Some (x :: pre, l)
      | None => None
      end
  end.

(** The rest of [k] below [pre], when [k] is [pre] or below it. *)
Fixpoint strip_prefix (pre k : list string) : option (list string) :=
  match pre, k with
  | [], _ => Some k
  | a :: pre', b :: k' => if String.eqb a b then strip_prefix pre' k' else None
  | _ :: _, [] => None
  end.

Section FileSystem.

Context (cfg : config).

(** The walk of a path from the root, or from the working directory when the
    path is relative. *)
Definition key (p : string) : list string :=
  Path.norm_segs false
    (Path.split (if Path.isAbsolute p then p else cwd cfg +:+ "/" +:+ p)).

(** The node a path names, if any. The empty path names nothing, and a path
    with a trailing separator names directories only. *)
Definition fs_lookup (fs : filesystem) (p : string) : option node :=
  if String.eqb p "" then None
  else
    match fs !! key p with
    | Some (File c m) => if endsWith p "/" then None else Some (File c m)
    | o => o
    end.

Definition parent_is_dir (fs : filesystem) (k : list string) : bool :=
  match split_last k with
  | None => true
  | Some (pre, _) =>
      match fs !! pre with
      | Some (Dir _ _) => true
      | _ => false
      end
  end.

(** The entries of the directory at [d], in the order the disk yields them. *)
Definition children (fs : filesystem) (d : list string) : list (string * node) :=
  omap (fun kv : list string * node =>
          match split_last kv.1 with
          | Some (pre, n) => if decide (pre = d) then Some (n, kv.2) else None
          | None => None
          end)
       (map_to_list fs).

(** [fs.existsSync(p)] *)
Definition existsSync (p : string) : M bool := fun fs =>
  (Ret (bool_decide (is_Some (fs_lookup fs p))), fs).

(** [fs.statSync(p)] *)
Definition statSync (p : string) : M stats := fun fs =>
  match fs_lookup fs p with
  | Some n => (Ret (stat_of n), fs)
  | None => (Throw "ENOENT: no such file or directory, stat", fs)
  end.

(** [fs.readdirSync(p, { withFileTypes: true })]: names with their kind. *)
Definition readdirSync (p : string) : M (list (string * bool)) := fun fs =>
  match fs_lookup fs p with
  | Some (Dir _ _) =>
      (Ret (List.map (fun e : string * node => (e.1, is_dir e.2)) (children fs (key p))), fs)
  | Some (File _ _) => (Throw "ENOTDIR: not a directory, scandir", fs)
  | None => (Throw "ENOENT: no such file or directory, scandir", fs)
  end.

(** [fs.readFileSync(p, "utf-8")].  Decoding substitutes a replacement
    character for ill-formed bytes and does not throw; the text is
    identified with the stored content. *)
Definition readFileSync (p : string) : M string := fun fs =>
  match fs_lookup fs p with
  | Some (File c _) => (Ret c, fs)
  | Some (Dir _ _) => (Throw "EISDIR: illegal operation on a directory, read", fs)
  | None => (Throw "ENOENT: no such file or directory, open", fs)
  end.

(** [fs.unlinkSync(p)] *)
Definition unlinkSync (p : string) : M unit := fun fs =>
  match fs_lookup fs p with
  | Some (File _ _) => (Ret (), delete (key p) fs)
  | Some (Dir _ _) => (Throw "EISDIR: illegal operation on a directory, unlink", fs)
  | None => (Throw "ENOENT: no such file or directory, unlink", fs)
  end.

(** Moving the subtree at [ko] to [kn]. *)
Definition rekey (ko kn : list string) (fs : filesystem) : filesystem :=
  list_to_map
    (List.map (fun kv : list string * node =>
                 match strip_prefix ko kv.1 with
                 | Some rest => ((kn ++ rest)%list, kv.2)
                 | None => kv
                 end)
              (map_to_list fs)).

(** [fs.renameSync(oldp, newp)]: a file replaces an existing file at the
    target; a directory moves with its subtree and replaces only an empty
    directory. *)
Definition renameSync (oldp newp : string) : M unit := fun fs =>
  let ko := key oldp in
  let kn := key newp in
  match fs_lookup fs oldp with
  | None => (Throw "ENOENT: no such file or directory, rename", fs)
  | Some (File c m) =>
      if negb (parent_is_dir fs kn) then
        (Throw "ENOENT: no such file or directory, rename", fs)
      else if endsWith newp "/" then
        (Throw "ENOTDIR: not a directory, rename", fs)
      else
        match fs !! kn with
        | Some (Dir _ _) =>
            (Throw "EISDIR: illegal operation on a directory, rename", fs)
        | _ =>
            if decide (ko = kn) then (Ret (), fs)
            else (Ret (), <[kn := File c m]> (delete ko fs))
        end
  | Some (Dir s m) =>
      if decide (ko = kn) then (Ret (), fs)
      else if bool_decide (is_Some (strip_prefix ko kn)) then
        (Throw "EINVAL: invalid argument, rename", fs)
      else if negb (parent_is_dir fs kn) then
        (Throw "ENOENT: no such file or directory, rename", fs)
      else
        match fs !! kn with
        | Some (File _ _) => (Throw "ENOTDIR: not a directory, rename", fs)
        | Some (Dir _ _) =>
            match children fs kn with
            | [] => (Ret (), rekey ko kn (delete kn fs))
            | _ :: _ => (Throw "ENOTEMPTY: directory not empty, rename", fs)
            end
        | None => (Ret (), rekey ko kn fs)
        end
  end.

(** [fs.rmSync(p, { recursive: true, force: true })] *)
Definition rmSync (p : string) : M unit := fun fs =>
  (Ret (),
   filter (fun kv : list string * node =>
             strip_prefix (key p) kv.1 = None) fs).

(** Writing a whole file at [p], as [fs.writeFileSync] and the disk storage
    of the upload middleware do; [now] is the time of the write. *)
Definition writeFile (now : Z) (p content : string) : M unit := fun fs =>
  if String.eqb p "" || endsWith p "/" then
    (Throw "EISDIR: illegal operation on a directory, open", fs)
  else if negb (parent_is_dir fs (key p)) then
    (Throw "ENOENT: no such file or directory, open", fs)
  else
    match fs !! key p with
    | Some (Dir _ _) => (Throw "EISDIR: illegal operation on a directory, open", fs)
    | _ => (Ret (), <[key p := File content now]> fs)
    end.

(** The paths from the root down to [k]. *)
Fixpoint prefixes (k : list string) : list (list string) :=
  match k with
  | [] => [[]]
  | x :: k' => [] :: List.map (cons x) (prefixes k')
  end.

Fixpoint mkdir_each (now : Z) (target : list string) (ks : list (list string))
    (fs : filesystem) : outcome unit * filesystem :=
  match ks with
  | [] => (Ret (), fs)
  | k :: rest =>
      match fs !! k with
      | Some (Dir _ _) => mkdir_each now target rest fs
      | Some (File _ _) =>
          if decide (k = target)
          then (Throw "EEXIST: file already exists, mkdir", fs)
          else (Throw "ENOTDIR: not a directory, mkdir", fs)
      | None => mkdir_each now target rest (<[k := Dir 4096 now]> fs)
      end
  end.

(** [fs.mkdirSync(p, { recursive: true })]: the missing directories on the
    way to [p] are created, and [p] itself. *)
Definition mkdirSync (now : Z) (p : string) : M unit := fun fs =>
  mkdir_each now (key p) (prefixes (key p)) fs.

End FileSystem.

(** ** Arrays *)

Module JsArray.

(** [x] goes before the first element it does not compare greater than. *)
Fixpoint insert_by {A} (cmp : A -> A -> Z) (x : A) (l : list A) : list A :=
  match l with
  | [] => [x]
  | y :: l' => if cmp x y <=? 0 then x :: l else y :: insert_by cmp x l'
  end.

(** [items.sort(cmp)]: the sort is stable; it is modelled by insertion from
    the right, which keeps elements that compare equal in their order. *)
Definition sort {A} (cmp : A -> A -> Z) (l : list A) : list A :=
  fold_right (insert_by cmp) [] l.

End JsArray.

(** [l.map(f)] for an [f] that reads the disk and may throw. *)
Fixpoint mapM {A B} (f : A -> M B) (l : list A) : M (list B) :=
  match l with
  | [] => mret []
  | x :: l' => y ← f x; ys ← mapM f l'; mret (y :: ys)
  end.

(** ** Responses *)

Record mod_entry := {
  me_name : string;
  me_size : Z;
  me_enabled : bool;
  me_modified : Z;
}.

Record file_entry := {
  fe_name : string;
  fe_isDirectory : bool;
  fe_size : Z;
  fe_modified : Z;
}.

(** What the status query resolves to. *)
Record status_result := {
  players_online : Z;
  players_max : Z;
  version_name : string;
  motd_clean : string;
  roundTripLatency : Z;
}.

Inductive body :=
| Message (message : string)
| Error (error : string)
| Mods (mods : list mod_entry)
| Items (items : list file_entry)
| FileContent (content name : string)
| StatusOnline (online max : Z) (version motd : string) (latency : Z)
| StatusOffline (error : string)
| Uncaught (message : string).

Record response := {
  res_status : Z;
  res_body : body;
}.

(** [res.json(b)] and [res.status(code).json(b)] *)
Definition json (b : body) : response := {| res_status := 200; res_body := b |}.
Definition status_json (code : Z) (b : body) : response :=
  {| res_status := code; res_body := b |}.

(** A handler run by the framework: an exception that escapes a handler is
    answered by the default error handler with status 500. *)
Definition express (h : M response) (fs : filesystem) : response * filesystem :=
  match h fs with
  | (Ret r, fs') => (r, fs')
  | (Throw e, fs') => (status_json 500 (Uncaught e), fs')
  end.

(** ** The upload middleware *)

Record upload_file := {
  originalname : string;
  data : string;
}.

Section Multer.

Context (cfg : config).
Context (fileFilter : upload_file -> outcome bool).
Context (destination : upload_file -> M string).
Context (now : Z).

(** Leaving a request with an error: the files stored so far are removed. *)
Fixpoint abort_upload (stored : list string) (e : string) : M (list upload_file) :=
  match stored with
  | [] => throw e
  | p :: rest => try_catch (unlinkSync cfg p) (fun _ => mret ());; abort_upload rest e
  end.

(** [upload.array(field, maxCount)] with disk storage under the file's
    original name: files are taken in order, each one is offered to the
    filter and, when accepted, written into its destination directory. *)
Fixpoint upload_array (remaining : nat) (files : list upload_file)
    (stored : list string) (accepted : list upload_file) : M (list upload_file) :=
  match files with
  | [] => mret (List.rev accepted)
  | f :: rest =>
      match remaining with
      | O => abort_upload stored "Unexpected field"
      | S remaining' =>
          match fileFilter f with
          | Throw e => abort_upload stored e
          | Ret false => upload_array remaining' rest stored accepted
          | Ret true =>
              fun fs =>
                match (dir ← destination f;
                       let p := Path.join [dir; originalname f] in
                       writeFile cfg now p (data f);; mret p) fs with
                | (Ret p, fs') =>
                    upload_array remaining' rest (p :: stored) (f :: accepted) fs'
                | (Throw e, fs') => abort_upload stored e fs'
                end
          end
      end
  end.

End Multer.

(** ** The service *)

Section Service.

Context (cfg : config).

(** *** Server status *)

(** [GET /api/status]; [mcStatus] is the awaited status query. *)
Definition getStatus (mcStatus : M status_result) : M response :=
  try_catch
    (result ← mcStatus;
     mret (json (StatusOnline (players_online result) (players_max result)
                   (version_name result) (motd_clean result)
                   (roundTripLatency result))))
    (fun message => mret (json (StatusOffline message))).

(** *** Mods *)

(** The filter of [modUpload]. *)
Definition modFileFilter (file : upload_file) : outcome bool :=
  if String.eqb (toLowerCase (Path.extname (originalname file))) ".jar"
  then Ret true
  else Throw "Only .jar files are allowed".

(** The destination of [modStorage]. *)
Definition modDestination (file : upload_file) : M string :=
  mret (MODS_DIR cfg).

(** [GET /api/mods] *)
Definition getMods : M response :=
  files ← readdirSync cfg (MODS_DIR cfg);
  mods ← mapM (fun f =>
                 stats ← statSync cfg (Path.join [MODS_DIR cfg; f]);
                 mret {| me_name := f; me_size := st_size stats;
                         me_enabled := endsWith f ".jar";
                         me_modified := st_mtime stats |})
              (List.filter (fun f => endsWith f ".jar" || endsWith f ".jar.disabled")
                           (List.map fst files));
  mret (json (Mods mods)).

(** [POST /api/mods] *)
Definition postMods (now : Z) (files : list upload_file) : M response :=
  accepted ← upload_array cfg modFileFilter modDestination now 20 files [] [];
  if (length accepted =? 0)%nat
  then mret (status_json 400 (Error "No files uploaded"))
  else mret (json (Message ("Uploaded " +:+ pretty (length accepted) +:+ " mod(s)"))).

(** [DELETE /api/mods/:name] *)
Definition deleteMod (name : string) : M response :=
  let filePath := Path.join [MODS_DIR cfg; name] in
  ex ← existsSync cfg filePath;
  if negb ex then mret (status_json 404 (Error "Not found"))
  else
    unlinkSync cfg filePath;;
    mret (json (Message ("Deleted " +:+ name))).

(** The new name computed by the toggle handler; [None] when the name has
    neither form. *)
Definition newName (name : string) : option string :=
  if endsWith name ".jar.disabled" then Some (replace name ".jar.disabled" ".jar")
  else if endsWith name ".jar" then Some (name +:+ ".disabled")
  else None.

(** [PATCH /api/mods/:name/toggle] *)
Definition toggleMod (name : string) : M response :=
  let filePath := Path.join [MODS_DIR cfg; name] in
  ex ← existsSync cfg filePath;
  if negb ex then mret (status_json 404 (Error "Not found"))
  else
    match newName name with
    | None => mret (status_json 400 (Error "Not a mod file"))
    | Some newName =>
        renameSync cfg filePath (Path.join [MODS_DIR cfg; newName]);;
        mret (json (Message ("Renamed to " +:+ newName)))
    end.

(** *** Files *)

(** [!p] for the result of [safePath]. *)
Definition falsy (p : option string) : bool :=
  match p with
  | None => true
  | Some s => String.eqb s ""
  end.

(** The destination of [fileStorage]: the directory of [req.query.path]. *)
Definition fileDestination (now : Z) (query_path : option string)
    (file : upload_file) : M string :=
  let dir := Path.join [DATA_DIR cfg; or_empty query_path] in
  let resolved := Path.resolve (cwd cfg) [dir] in
  if negb (startsWith resolved (Path.resolve (cwd cfg) [DATA_DIR cfg]))
  then throw "Invalid path"
  else
    ex ← existsSync cfg resolved;
    (if negb ex then mkdirSync cfg now resolved else mret ());;
    mret resolved.

(** [POST /api/files/upload]; the storage has no filter. *)
Definition postFiles (now : Z) (query_path : option string)
    (files : list upload_file) : M response :=
  accepted ← upload_array cfg (fun _ => Ret true)
                (fileDestination now query_path) now 20 files [] [];
  if (length accepted =? 0)%nat
  then mret (status_json 400 (Error "No files uploaded"))
  else mret (json (Message ("Uploaded " +:+ pretty (length accepted) +:+ " file(s)"))).

Section Listing.

(** [a.localeCompare(b)]: negative, zero or positive. *)
Context (localeCompare : string -> string -> Z).

(** The comparator given to [items.sort]. *)
Definition compareItems (a b : file_entry) : Z :=
  if Bool.eqb (fe_isDirectory a) (fe_isDirectory b)
  then localeCompare (fe_name a) (fe_name b)
  else if fe_isDirectory a then -1 else 1.

(** [GET /api/files] *)
Definition getFiles (query_path : option string) : M response :=
  let dir := safePath cfg (DATA_DIR cfg) query_path in
  if falsy dir then mret (status_json 400 (Error "Invalid path"))
  else
    let dir := or_empty dir in
    ex ← existsSync cfg dir;
    if negb ex then mret (status_json 404 (Error "Directory not found"))
    else
      try_catch
        (entries ← readdirSync cfg dir;
         items ← mapM (fun e : string * bool =>
                         stats ← statSync cfg (Path.join [dir; e.1]);
                         mret {| fe_name := e.1; fe_isDirectory := e.2;
                                 fe_size := st_size stats;
                                 fe_modified := st_mtime stats |})
                      entries;
         mret (json (Items (JsArray.sort compareItems items))))
        (fun message => mret (status_json 500 (Error message))).

End Listing.

(** [GET /api/files/read] *)
Definition readFile (query_path : option string) : M response :=
  let filePath := safePath cfg (DATA_DIR cfg) query_path in
  if falsy filePath then mret (status_json 400 (Error "Invalid path"))
  else
    let filePath := or_empty filePath in
    ex ← existsSync cfg filePath;
    notFile ← (if negb ex then mret true
               else st ← statSync cfg filePath; mret (st_isDirectory st));
    if (notFile : bool) then mret (status_json 400 (Error "Not a file"))
    else
      stats ← statSync cfg filePath;
      if st_size stats >? 1024 * 512
      then mret (status_json 400 (Error "File too large to edit (>512KB)"))
      else
        try_catch
          (content ← readFileSync cfg filePath;
           mret (json (FileContent content (Path.basename filePath))))
          (fun _ => mret (status_json 400 (Error "Cannot read file (binary?)"))).

(** [POST /api/files/rename] *)
Definition renameFile (body_oldPath body_newPath : option string) : M response :=
  let oldPath := safePath cfg (DATA_DIR cfg) body_oldPath in
  let newPath := safePath cfg (DATA_DIR cfg) body_newPath in
  if falsy oldPath || falsy newPath
  then mret (status_json 400 (Error "Invalid path"))
  else
    let oldPath := or_empty oldPath in
    let newPath := or_empty newPath in
    exOld ← existsSync cfg oldPath;
    if negb exOld then mret (status_json 404 (Error "Not found"))
    else
      exNew ← existsSync cfg newPath;
      if (exNew : bool) then mret (status_json 409 (Error "Target already exists"))
      else
        try_catch
          (renameSync cfg oldPath newPath;;
           mret (json (Message ("Renamed to " +:+ Path.basename newPath))))
          (fun message => mret (status_json 500 (Error message))).

(** [DELETE /api/files] *)
Definition deleteFile (query_path : option string) : M response :=
  let filePath := safePath cfg (DATA_DIR cfg) query_path in
  if falsy filePath
     || String.eqb (or_empty filePath) (Path.resolve (cwd cfg) [DATA_DIR cfg])
  then mret (status_json 400 (Error "Invalid path"))
  else
    let filePath := or_empty filePath in
    ex ← existsSync cfg filePath;
    if negb ex then mret (status_json 404 (Error "Not found"))
    else
      stats ← statSync cfg filePath;
      (if st_isDirectory stats then rmSync cfg filePath
       else unlinkSync cfg filePath);;
      mret (json (Message ("Deleted " +:+ Path.basename filePath))).





End Service.

(** ** Restarting the server *)

(** What the container runtime lists for a container. *)
Record container_info := {
  Id : string;
  Image : string;
}.

Section Restart.

(** [docker.listContainers({ all: true })] and the [restart] of the container
    with a given id. *)
Context (listContainers : M (list container_info)).
Context (restart : string -> M unit).

(** [findMcContainer]: the id of the first listed container whose image name
    includes the marker; a failure of the listing is logged and gives
    [null]. *)
Definition findMcContainer : M (option string) :=
  try_catch
    (containers ← listContainers;
     match List.find (fun c => includes (Image c) "itzg/minecraft-server") containers with
     | Some mc => mret (Some (Id mc))
     | None => mret None
     end)
    (fun _ => mret None).

(** [POST /api/restart] *)
Definition postRestart : M response :=
  try_catch
    (container ← findMcContainer;
     match container with
     | None => mret (status_json 404 (Error "Minecraft container not found"))
     | Some id => restart id;; mret (json (Message "Server restarting..."))
     end)
    (fun message => mret (status_json 500 (Error message))).

End Restart.

(** ** Vocabulary of the properties *)

(** The order a comparator induces: [a] may come before [b]. *)
Definition cmp_le {A} (cmp : A -> A -> Z) (a b : A) : Prop := cmp a b <= 0.

(** The containment the confiner is meant to enforce: equal to the root, or
    below it. *)
Definition within (root p : string) : bool :=
  String.eqb p root || startsWith p (root +:+ "/").

(** A name that can be an entry of a directory. *)
Definition proper (seg : string) : Prop :=
  seg <> "" /\ seg <> "." /\ seg <> ".." /\ has_slash seg = false.

(** A rendered absolute path: the separator, then the segments joined. *)
Definition render (segs : list string) : string := "/" +:+ Path.join_segs segs.

(** A disk all of whose paths are made of entry names. *)
Definition wf_disk (fs : filesystem) : Prop :=
  forall k v, fs !! k = Some v -> Forall proper k.

(** The record the listing builds for an entry. *)
Definition entry_of (e : string * node) : file_entry :=
  {| fe_name := e.1; fe_isDirectory := is_dir e.2;
     fe_size := st_size (stat_of e.2); fe_modified := st_mtime (stat_of e.2) |}.

(** The mod entry the listing builds for the name [f], from the node of that
    name in the mod directory. *)
Definition mod_entry_of (cfg : config) (fs : filesystem) (f : string) : mod_entry :=
  let stats := match fs !! (key cfg (MODS_DIR cfg) ++ [f])%list with
               | Some v => stat_of v
               | None => {| st_isDirectory := false; st_size := 0; st_mtime := 0 |}
               end in
  {| me_name := f; me_size := st_size stats;
     me_enabled := endsWith f ".jar"; me_modified := st_mtime stats |}.


(** Comparison by code points; on names in lower-case ASCII letters it
    orders as the collation does. *)
Definition codepointCompare (a b : string) : Z :=
  match String.compare a b with
  | Lt => -1
  | Eq => 0
  | Gt => 1
  end.

(** The last character of a string. *)
Fixpoint last_ascii (s : string) : option ascii :=
  match s with
  | EmptyString => None
  | String c EmptyString => Some c
  | String _ s' => last_ascii s'
  end.


(** What is left of the disk after [p] has been removed. *)
Definition removed (cfg : config) (p : string) (n : node) (fs : filesystem)
  : filesystem :=
  if is_dir n
  then filter (fun kv : list string * node => strip_prefix (key cfg p) kv.1 = None) fs
  else delete (key cfg p) fs.

(** A computation that leaves the disk as it found it, whatever it returns. *)
Definition reads_only {A} (m : M A) : Prop := forall fs, (m fs).2 = fs.

(** The entry of the mod listing for a node named [n]. *)
Definition mod_record (n : string) (v : node) : mod_entry :=
  {| me_name := n; me_size := st_size (stat_of v);
     me_enabled := endsWith n ".jar"; me_modified := st_mtime (stat_of v) |}.

(** The names the mod listing keeps. *)
Definition mod_name (n : string) : bool :=
  endsWith n ".jar" || endsWith n ".jar.disabled".

(** The test of [findMcContainer] on a listed container. *)
Definition is_mc_image (c : container_info) : bool :=
  includes (Image c) "itzg/minecraft-server".

(** ** Example disks *)

(** A disk with the two configured roots and nothing in them. *)
Definition empty_disk : filesystem :=
  <[ ["app"; "data"] := Dir 4096 0 ]>
  (<[ ["app"; "mods"] := Dir 4096 0 ]>
  (<[ ["app"] := Dir 4096 0 ]>
  (<[ [] := Dir 4096 0 ]> ∅))).

(** The disk after a handler has run, and the answer it gave. *)
Definition run (h : M response) (fs : filesystem) : filesystem := (express h fs).2.
Definition answer (h : M response) (fs : filesystem) : response := (express h fs).1.

(** A directory next to the data root whose name extends the root's. *)
Definition disk_with_sibling : filesystem :=
  <[ ["app"; "data2"; "secret.txt"] := File "secret" 4 ]>
  (<[ ["app"; "data2"] := Dir 4096 4 ]> empty_disk).

(** An enabled mod whose name holds the disabled form before its end, and
    the disks after its upload and after one and two toggles. *)
Definition nested_mod : upload_file :=
  {| originalname := "x.jar.disabled.jar"; data := "AAA" |}.

Definition nested_uploaded : filesystem :=
  run (postMods default_config 7 [nested_mod]) empty_disk.

Definition nested_toggled_once : filesystem :=
  run (toggleMod default_config "x.jar.disabled.jar") nested_uploaded.

Definition nested_toggled_twice : filesystem :=
  run (toggleMod default_config "x.jar.disabled.jar.disabled") nested_toggled_once.

(** The mod [coolmod.jar]: uploaded, disabled, uploaded again next to its
    disabled form, and toggled once more. *)
Definition coolmod (content : string) : upload_file :=
  {| originalname := "coolmod.jar"; data := content |}.

Definition cool_v1 : filesystem :=
  run (postMods default_config 1 [coolmod "v1"]) empty_disk.

Definition cool_v1_disabled : filesystem :=
  run (toggleMod default_config "coolmod.jar") cool_v1.

Definition cool_both : filesystem :=
  run (postMods default_config 2 [coolmod "v2"]) cool_v1_disabled.

Definition cool_merged : filesystem :=
  run (toggleMod default_config "coolmod.jar") cool_both.

(** A file of the data root, outside the mod root. *)
Definition disk_with_properties : filesystem :=
  <[ ["app"; "data"; "server.properties"] := File "motd=hello" 3 ]> empty_disk.

(** A disk with a file, two directories and a file below one of them. *)
Definition sample_disk : filesystem :=
  <[ ["app"; "data"; "b.txt"] := File "hello" 5 ]>
  (<[ ["app"; "data"; "a"] := Dir 4096 1 ]>
  (<[ ["app"; "data"; "c"] := Dir 4096 1 ]>
  (<[ ["app"; "data"; "c"; "x"] := File "x" 1 ]> empty_disk))).




(** * Properties *)

(** ** Strings and paths *)

Lemma startsWith_app (p rest : string) : startsWith (p +:+ rest) p = true.
Proof.
  induction p as [|c p IH]; simpl; [reflexivity|].
  rewrite Ascii.eqb_refl. exact IH.
Qed.

Lemma startsWith_prefix (s p : string) :
  startsWith s p = true -> exists rest, s = p +:+ rest.
Proof.
  revert s. induction p as [|c p IH]; intros s H; simpl in *.
  - exists s. reflexivity.
  - destruct s as [|d s]; [discriminate|].
    destruct (Ascii.eqb c d) eqn:E; [|discriminate].
    apply Ascii.eqb_eq in E. subst d.
    destruct (IH _ H) as [rest ->]. exists rest. reflexivity.
Qed.

Lemma endsWith_refl (s : string) : endsWith s s = true.
Proof.
  destruct s as [|c s]; [reflexivity|].
  change (endsWith (String c s) (String c s))
    with (if String.eqb (String c s) (String c s) then true
          else endsWith s (String c s)).
  rewrite String.eqb_refl. reflexivity.
Qed.

Lemma endsWith_app (pre p : string) : endsWith (pre +:+ p) p = true.
Proof.
  induction pre as [|c pre IH].
  - apply endsWith_refl.
  - change (endsWith (String c pre +:+ p) p)
      with (if String.eqb (String c (pre +:+ p)) p then true
            else endsWith (pre +:+ p) p).
    rewrite IH. destruct (String.eqb _ _); reflexivity.
Qed.

Lemma endsWith_suffix (s p : string) :
  endsWith s p = true -> exists pre, s = pre +:+ p.
Proof.
  induction s as [|c s IH]; intros H.
  - destruct (String.eqb "" p) eqn:E.
    + apply String.eqb_eq in E. subst p. exists "". reflexivity.
    + unfold endsWith in H. rewrite E in H. discriminate.
  - change (endsWith (String c s) p)
      with (if String.eqb (String c s) p then true else endsWith s p) in H.
    destruct (String.eqb (String c s) p) eqn:E.
    + apply String.eqb_eq in E. subst p. exists "". reflexivity.
    + destruct (IH H) as [pre ->]. exists (String c pre). reflexivity.
Qed.


Lemma split_no_slash (s : string) : has_slash s = false -> Path.split s = [s].
Proof.
  induction s as [|c s IH]; simpl; intros H; [reflexivity|].
  destruct (Ascii.eqb c "/"); [discriminate|].
  rewrite (IH H). reflexivity.
Qed.



(** [path.resolve] never yields the empty string. *)
Lemma resolve_nonempty (wd : string) (args : list string) :
  Path.resolve wd args <> "".
Proof.
  unfold Path.resolve.
  destruct (Path.resolve_loop _ _) as [rp abs].
  destruct abs; simpl; [discriminate|].
  destruct (String.eqb _ "") eqn:E; [discriminate|].
  intros H. rewrite H in E. discriminate.
Qed.

(** What the confiner checks: a returned path is the resolution of the
    request against the root, and the resolved root is a prefix of it as a
    string. *)
Lemma safePath_Some (cfg : config) (base : string) (rel : option string) (p : string) :
  safePath cfg base rel = Some p ->
  p = Path.resolve (cwd cfg) [base; or_empty rel] /\
  startsWith p (Path.resolve (cwd cfg) [base]) = true /\
  p <> "".
Proof.
  unfold safePath. intros H.
  destruct (startsWith _ _) eqn:E; simpl in H; [|discriminate].
  injection H as <-. repeat split; [exact E|apply resolve_nonempty].
Qed.

Lemma safePath_falsy (cfg : config) (base : string) (rel : option string) :
  falsy (safePath cfg base rel) = true <-> safePath cfg base rel = None.
Proof.
  destruct (safePath cfg base rel) as [p|] eqn:E; simpl; [|tauto].
  apply safePath_Some in E as (_ & _ & Hne).
  split; [|discriminate].
  intros H. apply String.eqb_eq in H. contradiction.
Qed.

(** ** Confinement *)

(** C1. [safePath] does not confine to the root: with root [/app/data] the
    request [../data2] resolves to the sibling [/app/data2], which is neither
    the root nor below it, and is returned rather than rejected; a file of
    the sibling is then read through the file tree, and the upload
    destination, which applies the same test, accepts the sibling too. *)
Theorem safePath_accepts_sibling_sharing_prefix :
  safePath default_config "/app/data" (Some "../data2") = Some "/app/data2" /\
  within "/app/data" "/app/data2" = false /\
  express (readFile default_config (Some "../data2/secret.txt")) disk_with_sibling
    = (json (FileContent "secret" "secret.txt"), disk_with_sibling) /\
  fileDestination default_config 7 (Some "../data2")
      {| originalname := "f"; data := "" |} disk_with_sibling
    = (Ret "/app/data2", disk_with_sibling) /\
  express (postFiles default_config 7 (Some "../data2")
             [ {| originalname := "f"; data := "x" |} ]) disk_with_sibling
    = (json (Message "Uploaded 1 file(s)"),
       <[ ["app"; "data2"; "f"] := File "x" 7 ]> disk_with_sibling).
Proof. repeat split; vm_compute; reflexivity. Qed.

(** ** The status probe *)

(** C9. Whatever the status query does, the status handler answers with
    status 200 and never throws: when the query resolves, the body has
    online = true with the player counts, version, message of the day and
    latency of the result; when it fails, the body has online = false and the
    message of the error. *)
Theorem getStatus_always_responds (mcStatus : M status_result) (fs : filesystem) :
  getStatus mcStatus fs =
    match mcStatus fs with
    | (Ret result, fs') =>
        (Ret {| res_status := 200;
                res_body := StatusOnline (players_online result) (players_max result)
                              (version_name result) (motd_clean result)
                              (roundTripLatency result) |}, fs')
    | (Throw message, fs') =>
        (Ret {| res_status := 200; res_body := StatusOffline message |}, fs')
    end
  /\ exists r fs', getStatus mcStatus fs = (Ret r, fs') /\ res_status r = 200.
Proof.
  unfold getStatus, try_catch, mbind, M_bind, mret, M_ret, json.
  destruct (mcStatus fs) as [[result|message] fs']; split; eauto.
Qed.

(** ** The mod store on a small disk *)

(** C2. Toggling twice is not the identity on every mod file: the uploaded,
    enabled mod [x.jar.disabled.jar] becomes [x.jar.disabled.jar.disabled]
    and then [x.jar.jar.disabled], because the first occurrence of the
    disabled form is replaced, not the suffix; after two toggles the name
    differs from the original and the mod is still disabled. *)
Theorem toggle_twice_changes_nested_name :
  answer (postMods default_config 7 [nested_mod]) empty_disk
    = json (Message "Uploaded 1 mod(s)") /\
  answer (getMods default_config) nested_uploaded
    = json (Mods [ {| me_name := "x.jar.disabled.jar"; me_size := 3;
                      me_enabled := true; me_modified := 7 |} ]) /\
  answer (toggleMod default_config "x.jar.disabled.jar") nested_uploaded
    = json (Message "Renamed to x.jar.disabled.jar.disabled") /\
  answer (toggleMod default_config "x.jar.disabled.jar.disabled") nested_toggled_once
    = json (Message "Renamed to x.jar.jar.disabled") /\
  answer (getMods default_config) nested_toggled_twice
    = json (Mods [ {| me_name := "x.jar.jar.disabled"; me_size := 3;
                      me_enabled := false; me_modified := 7 |} ]).
Proof. repeat split; vm_compute; reflexivity. Qed.

(** Where the disabled form occurs only as the suffix, the two name forms
    are exchanged by the toggle. *)

Lemma last_ascii_app (s t : string) :
  t <> "" -> last_ascii (s +:+ t) = last_ascii t.
Proof.
  intros Ht. induction s as [|c s IH]; [reflexivity|].
  simpl. rewrite IH. destruct (s +:+ t) eqn:E; [|reflexivity].
  destruct s; [change (t = "") in E; congruence|discriminate E].
Qed.

Lemma disabled_form_no_overlap (s : string) :
  startsWith (s +:+ ".jar.disabled") ".jar.disabled" = true ->
  s = "" \/ startsWith s ".jar.disabled" = true.
Proof.
  intros H.
  do 13 (destruct s as [|? s]; [first [left; reflexivity | simpl in H; discriminate]|];
         simpl in H |- *;
         match type of H with
         | (if ?b then _ else _) = true => destruct b eqn:?; [|discriminate]
         end).
  right. reflexivity.
Qed.

Lemma replace_disabled_suffix (base : string) :
  includes base ".jar.disabled" = false ->
  replace (base +:+ ".jar.disabled") ".jar.disabled" ".jar" = base +:+ ".jar".
Proof.
  induction base as [|c base IH]; intros Hinc; [reflexivity|].
  change (includes (String c base) ".jar.disabled")
    with (if startsWith (String c base) ".jar.disabled" then true
          else includes base ".jar.disabled") in Hinc.
  destruct (startsWith (String c base) ".jar.disabled") eqn:Es; [discriminate|].
  change (replace (String c base +:+ ".jar.disabled") ".jar.disabled" ".jar")
    with (if startsWith (String c base +:+ ".jar.disabled") ".jar.disabled"
          then ".jar" +:+ drop 13 (String c base +:+ ".jar.disabled")
          else String c (replace (base +:+ ".jar.disabled") ".jar.disabled" ".jar")).
  destruct (startsWith (String c base +:+ ".jar.disabled") ".jar.disabled") eqn:E.
  - apply disabled_form_no_overlap in E as [E|E]; congruence.
  - rewrite (IH Hinc). reflexivity.
Qed.

Lemma append_assoc (a b c : string) : (a +:+ b) +:+ c = a +:+ (b +:+ c).
Proof.
  induction a as [|x a IH]; [reflexivity|].
  change (String x ((a +:+ b) +:+ c) = String x (a +:+ (b +:+ c))).
  rewrite IH. reflexivity.
Qed.

Lemma jar_not_disabled (base : string) :
  endsWith (base +:+ ".jar") ".jar.disabled" = false.
Proof.
  destruct (endsWith _ _) eqn:E; [|reflexivity].
  apply endsWith_suffix in E as [pre E].
  apply (f_equal last_ascii) in E.
  rewrite !last_ascii_app in E by discriminate. discriminate.
Qed.

Theorem newName_exchanges_plain_forms (base : string) :
  includes base ".jar.disabled" = false ->
  newName (base +:+ ".jar") = Some (base +:+ ".jar.disabled") /\
  newName (base +:+ ".jar.disabled") = Some (base +:+ ".jar").
Proof.
  intros Hinc. unfold newName. split.
  - rewrite jar_not_disabled, endsWith_app.
    rewrite append_assoc. reflexivity.
  - rewrite endsWith_app, replace_disabled_suffix by assumption. reflexivity.
Qed.

(** C3. The mod store does not keep one file per base name, and toggle
    overwrites the opposite form without a signal: after uploading
    [coolmod.jar], disabling it and uploading [coolmod.jar] again, both forms
    exist; toggling [coolmod.jar] then answers 200 and the earlier
    [coolmod.jar.disabled] is replaced by the new content. *)
Theorem toggle_overwrites_opposite_form :
  answer (getMods default_config) cool_both
    = json (Mods [ {| me_name := "coolmod.jar"; me_size := 2;
                      me_enabled := true; me_modified := 2 |};
                   {| me_name := "coolmod.jar.disabled"; me_size := 2;
                      me_enabled := false; me_modified := 1 |} ]) /\
  cool_both !! ["app"; "mods"; "coolmod.jar.disabled"] = Some (File "v1" 1) /\
  answer (toggleMod default_config "coolmod.jar") cool_both
    = json (Message "Renamed to coolmod.jar.disabled") /\
  cool_merged !! ["app"; "mods"; "coolmod.jar.disabled"] = Some (File "v2" 2) /\
  cool_merged !! ["app"; "mods"; "coolmod.jar"] = None.
Proof. repeat split; vm_compute; reflexivity. Qed.

(** C5. Deleting a mod does not reject a name with a path separator: the name
    [../data/server.properties] is joined to the mod root, and the file of
    that name outside the mod directory is removed with a 200 answer. The
    file tree's own delete rejects a request that leaves its root. *)
Theorem deleteMod_removes_file_outside_mods :
  has_slash "../data/server.properties" = true /\
  express (deleteMod default_config "../data/server.properties") disk_with_properties
    = (json (Message "Deleted ../data/server.properties"), empty_disk) /\
  express (deleteFile default_config (Some "../mods/coolmod.jar")) cool_v1
    = (status_json 400 (Error "Invalid path"), cool_v1).
Proof. repeat split; vm_compute; reflexivity. Qed.

(** ** Stepping through handlers *)

Lemma bind_Ret {A B} (m : M A) (f : A -> M B) (fs fs' : filesystem) (a : A) :
  m fs = (Ret a, fs') -> (m ≫= f) fs = f a fs'.
Proof. intros H. unfold mbind, M_bind. rewrite H. reflexivity. Qed.

Lemma bind_Throw {A B} (m : M A) (f : A -> M B) (fs fs' : filesystem) (e : string) :
  m fs = (Throw e, fs') -> (m ≫= f) fs = (Throw e, fs').
Proof. intros H. unfold mbind, M_bind. rewrite H. reflexivity. Qed.

Lemma existsSync_Some (cfg : config) (fs : filesystem) (p : string) (n : node) :
  fs_lookup cfg fs p = Some n -> existsSync cfg p fs = (Ret true, fs).
Proof.
  intros H. unfold existsSync. rewrite bool_decide_eq_true_2; [reflexivity|].
  rewrite H. eauto.
Qed.

Lemma existsSync_None (cfg : config) (fs : filesystem) (p : string) :
  fs_lookup cfg fs p = None -> existsSync cfg p fs = (Ret false, fs).
Proof.
  intros H. unfold existsSync. rewrite bool_decide_eq_false_2; [reflexivity|].
  rewrite H. intros [? ?]. discriminate.
Qed.

Lemma statSync_Some (cfg : config) (fs : filesystem) (p : string) (n : node) :
  fs_lookup cfg fs p = Some n -> statSync cfg p fs = (Ret (stat_of n), fs).
Proof. intros H. unfold statSync. rewrite H. reflexivity. Qed.

Lemma fs_lookup_key (cfg : config) (fs : filesystem) (p : string) (n : node) :
  fs_lookup cfg fs p = Some n -> fs !! key cfg p = Some n.
Proof.
  unfold fs_lookup. destruct (String.eqb p ""); [discriminate|].
  destruct (fs !! key cfg p) as [[c m|s m]|]; [|tauto|discriminate].
  destruct (endsWith p "/"); [discriminate|tauto].
Qed.

Lemma falsy_Some (p : string) : p <> "" -> falsy (Some p) = false.
Proof. intros H. simpl. apply String.eqb_neq. exact H. Qed.

(** ** Renaming in the file tree *)

(** C7. The rename handler answers 400 without touching the disk when either
    path fails confinement, whatever the disk holds; for confined paths it
    answers 404 when the old path is absent, and 409 when the old path exists
    and the new path exists too; in each case the disk is unchanged, so the
    source and the existing target are untouched. *)
Theorem renameFile_guards (cfg : config) (fs : filesystem)
    (body_oldPath body_newPath : option string) :
  (safePath cfg (DATA_DIR cfg) body_oldPath = None \/
   safePath cfg (DATA_DIR cfg) body_newPath = None ->
   renameFile cfg body_oldPath body_newPath fs
     = (Ret (status_json 400 (Error "Invalid path")), fs)) /\
  (forall oldPath newPath,
     safePath cfg (DATA_DIR cfg) body_oldPath = Some oldPath ->
     safePath cfg (DATA_DIR cfg) body_newPath = Some newPath ->
     (fs_lookup cfg fs oldPath = None ->
      renameFile cfg body_oldPath body_newPath fs
        = (Ret (status_json 404 (Error "Not found")), fs)) /\
     (is_Some (fs_lookup cfg fs oldPath) ->
      is_Some (fs_lookup cfg fs newPath) ->
      renameFile cfg body_oldPath body_newPath fs
        = (Ret (status_json 409 (Error "Target already exists")), fs))).
Proof.
  split.
  - intros H. unfold renameFile.
    assert (falsy (safePath cfg (DATA_DIR cfg) body_oldPath)
            || falsy (safePath cfg (DATA_DIR cfg) body_newPath) = true) as ->;
      [|reflexivity].
    apply orb_true_iff. rewrite !safePath_falsy. exact H.
  - intros oldPath newPath Ho Hn.
    pose proof (safePath_Some _ _ _ _ Ho) as (_ & _ & Hone).
    pose proof (safePath_Some _ _ _ _ Hn) as (_ & _ & Hnne).
    unfold renameFile. rewrite Ho, Hn.
    rewrite (falsy_Some _ Hone), (falsy_Some _ Hnne). simpl.
    split.
    + intros Habsent.
      rewrite (bind_Ret _ _ _ _ _ (existsSync_None _ _ _ Habsent)).
      reflexivity.
    + intros [no Hold] [nn Hnew].
      rewrite (bind_Ret _ _ _ _ _ (existsSync_Some _ _ _ _ Hold)). simpl.
      rewrite (bind_Ret _ _ _ _ _ (existsSync_Some _ _ _ _ Hnew)).
      reflexivity.
Qed.

Lemma renameFile_guards_witness :
  renameFile default_config (Some "b.txt") (Some "c/x") sample_disk
    = (Ret (status_json 409 (Error "Target already exists")), sample_disk) /\
  renameFile default_config (Some "missing") (Some "c/x") sample_disk
    = (Ret (status_json 404 (Error "Not found")), sample_disk) /\
  renameFile default_config (Some "b.txt") (Some "../mods/b.txt") sample_disk
    = (Ret (status_json 400 (Error "Invalid path")), sample_disk).
Proof.
  destruct (renameFile_guards default_config sample_disk (Some "b.txt") (Some "c/x"))
    as [_ H1].
  destruct (H1 "/app/data/b.txt" "/app/data/c/x" eq_refl eq_refl) as [_ H409].
  destruct (renameFile_guards default_config sample_disk (Some "missing") (Some "c/x"))
    as [_ H2].
  destruct (H2 "/app/data/missing" "/app/data/c/x" eq_refl eq_refl) as [H404 _].
  destruct (renameFile_guards default_config sample_disk (Some "b.txt")
              (Some "../mods/b.txt")) as [H400 _].
  split; [|split].
  - apply H409; vm_compute; eauto.
  - apply H404; vm_compute; reflexivity.
  - apply H400; right; vm_compute; reflexivity.
Defined.

(** ** Reading a file *)








(** ** Toggling a mod *)

(** C10. When the toggle handler returns for a name that has a new name,
    names a file of the disk, and whose new path is free, it answers 200 and
    the disk changes by one rename: the new path holds the file with the same
    content (hence size) and time stamp, the old path is free, and every
    other path holds what it held before. *)
Theorem toggleMod_renames_only_target (cfg : config) (fs fs' : filesystem)
    (name new content : string) (mtime : Z) (r : response) :
  let ko := key cfg (Path.join [MODS_DIR cfg; name]) in
  let kn := key cfg (Path.join [MODS_DIR cfg; new]) in
  newName name = Some new ->
  fs_lookup cfg fs (Path.join [MODS_DIR cfg; name]) = Some (File content mtime) ->
  fs !! kn = None ->
  toggleMod cfg name fs = (Ret r, fs') ->
  r = json (Message ("Renamed to " +:+ new)) /\
  fs' !! kn = Some (File content mtime) /\
  fs' !! kn = fs !! ko /\
  fs' !! ko = None /\
  (forall k, k <> ko -> k <> kn -> fs' !! k = fs !! k).
Proof.
  intros ko kn Hnew Hold Hfree Hrun.
  pose proof (fs_lookup_key _ _ _ _ Hold) as Hko. fold ko in Hko.
  assert (Hne : ko <> kn) by (intros E; rewrite E in Hko; congruence).
  unfold toggleMod in Hrun.
  rewrite (bind_Ret _ _ _ _ _ (existsSync_Some _ _ _ _ Hold)) in Hrun.
  simpl in Hrun. rewrite Hnew in Hrun.
  unfold mbind, M_bind, renameSync in Hrun.
  rewrite Hold in Hrun. fold ko kn in Hrun.
  destruct (negb (parent_is_dir fs kn)); [discriminate|].
  destruct (endsWith _ "/"); [discriminate|].
  rewrite Hfree in Hrun.
  destruct (decide (ko = kn)) as [E|_]; [contradiction|].
  injection Hrun as <- <-.
  split; [reflexivity|].
  split; [apply lookup_insert_eq|].
  split; [rewrite lookup_insert_eq; symmetry; exact Hko|].
  split.
  - rewrite lookup_insert_ne by congruence. apply lookup_delete_eq.
  - intros k Hk1 Hk2.
    rewrite lookup_insert_ne by congruence.
    apply lookup_delete_ne. congruence.
Qed.

Lemma toggleMod_renames_only_target_witness :
  answer (toggleMod default_config "coolmod.jar") cool_v1
    = json (Message "Renamed to coolmod.jar.disabled") /\
  cool_v1_disabled !! ["app"; "mods"; "coolmod.jar.disabled"] = Some (File "v1" 1) /\
  cool_v1_disabled !! ["app"; "mods"; "coolmod.jar"] = None /\
  cool_v1_disabled !! ["app"; "data"] = cool_v1 !! ["app"; "data"].
Proof.
  assert (Hrun : toggleMod default_config "coolmod.jar" cool_v1
                 = (Ret (answer (toggleMod default_config "coolmod.jar") cool_v1),
                    cool_v1_disabled))
    by (vm_compute; reflexivity).
  destruct (toggleMod_renames_only_target default_config cool_v1 cool_v1_disabled
              "coolmod.jar" "coolmod.jar.disabled" "v1" 1 _
              eq_refl eq_refl eq_refl Hrun) as (Hr & Hn & _ & Ho & Hother).
  split; [exact Hr|]. split; [exact Hn|]. split; [exact Ho|].
  apply Hother; vm_compute; congruence.
Defined.

(** ** Paths of directory entries *)

Lemma split_cons (s : string) : exists h t, Path.split s = h :: t.
Proof.
  destruct s as [|c s]; simpl; [eauto|].
  destruct (Ascii.eqb c "/"); [eauto|].
  destruct (Path.split s); eauto.
Qed.

Lemma split_app_slash (a b : string) :
  Path.split (a +:+ "/" +:+ b) = (Path.split a ++ Path.split b)%list.
Proof.
  induction a as [|c a IH]; simpl; [reflexivity|].
  destruct (Ascii.eqb c "/").
  - rewrite IH. reflexivity.
  - rewrite IH. destruct (split_cons a) as (h & t & ->). reflexivity.
Qed.

Lemma split_no_slash_segments (s : string) :
  Forall (fun seg => has_slash seg = false) (Path.split s).
Proof.
  induction s as [|c s IH]; simpl.
  - constructor; [reflexivity|constructor].
  - destruct (Ascii.eqb c "/") eqn:E.
    + constructor; [reflexivity|exact IH].
    + destruct (Path.split s) as [|h t]; simpl.
      * constructor; [simpl; rewrite E; reflexivity|constructor].
      * inversion IH; subst. constructor; [simpl; rewrite E|]; assumption.
Qed.

Lemma split_join_segs (l : list string) :
  l <> [] -> Forall (fun seg => has_slash seg = false) l ->
  Path.split (Path.join_segs l) = l.
Proof.
  induction l as [|x l IH]; intros Hne Hl; [congruence|].
  inversion Hl as [|? ? Hx Hl']; subst.
  destruct l as [|y l].
  - simpl. apply split_no_slash, Hx.
  - change (Path.join_segs (x :: y :: l))
      with (x +:+ "/" +:+ Path.join_segs (y :: l)).
    rewrite split_app_slash, (split_no_slash _ Hx), IH by (congruence || assumption).
    reflexivity.
Qed.

Lemma norm_step_proper (b : bool) (stack : list string) (seg : string) :
  proper seg -> Path.norm_step b stack seg = seg :: stack.
Proof.
  intros (H1 & H2 & H3 & _). unfold Path.norm_step.
  apply String.eqb_neq in H1, H2, H3. rewrite H1, H2, H3. reflexivity.
Qed.

Lemma fold_norm_proper (b : bool) (l stack : list string) :
  Forall proper l ->
  fold_left (Path.norm_step b) l stack = (List.rev l ++ stack)%list.
Proof.
  revert stack. induction l as [|x l IH]; intros stack Hl; [reflexivity|].
  inversion Hl; subst. simpl.
  rewrite norm_step_proper, IH by assumption.
  rewrite <- app_assoc. reflexivity.
Qed.

Lemma norm_segs_proper (l : list string) :
  Forall proper l -> Path.norm_segs false l = l.
Proof.
  intros Hl. unfold Path.norm_segs.
  rewrite fold_norm_proper, app_nil_r by assumption.
  apply rev_involutive.
Qed.

Lemma norm_step_keeps_proper (stack : list string) (seg : string) :
  has_slash seg = false -> Forall proper stack ->
  Forall proper (Path.norm_step false stack seg).
Proof.
  intros Hs Hst. unfold Path.norm_step.
  destruct (String.eqb seg "") eqn:E1; [exact Hst|].
  destruct (String.eqb seg ".") eqn:E2; [exact Hst|]. simpl.
  destruct (String.eqb seg "..") eqn:E3.
  - destruct stack as [|top below]; [constructor|].
    destruct (String.eqb top ".."); [exact Hst|].
    inversion Hst; assumption.
  - constructor; [|exact Hst].
    apply String.eqb_neq in E1, E2, E3. repeat split; assumption.
Qed.

Lemma fold_norm_keeps_proper (l stack : list string) :
  Forall (fun seg => has_slash seg = false) l -> Forall proper stack ->
  Forall proper (fold_left (Path.norm_step false) l stack).
Proof.
  revert stack. induction l as [|x l IH]; intros stack Hl Hst; [exact Hst|].
  inversion Hl; subst. simpl.
  apply IH; [assumption|]. apply norm_step_keeps_proper; assumption.
Qed.

(** The segments of a walk are entry names. *)
Lemma norm_segs_split_proper (p : string) :
  Forall proper (Path.norm_segs false (Path.split p)).
Proof.
  unfold Path.norm_segs.
  apply Forall_rev, fold_norm_keeps_proper;
    [apply split_no_slash_segments|constructor].
Qed.

Lemma key_proper (cfg : config) (p : string) : Forall proper (key cfg p).
Proof. apply norm_segs_split_proper. Qed.

Lemma norm_segs_snoc (l : list string) (n : string) :
  proper n ->
  Path.norm_segs false (l ++ [n]) = (Path.norm_segs false l ++ [n])%list.
Proof.
  intros Hn. unfold Path.norm_segs.
  rewrite fold_left_app. simpl. rewrite norm_step_proper by assumption.
  reflexivity.
Qed.

Lemma isAbsolute_app (d rest : string) :
  d <> "" -> Path.isAbsolute (d +:+ rest) = Path.isAbsolute d.
Proof. destruct d; [congruence|reflexivity]. Qed.

Lemma endsWith_slash_last (s : string) :
  endsWith s "/" = true -> List.last (Path.split s) "x" = "".
Proof.
  intros H. apply endsWith_suffix in H as [pre ->].
  replace (pre +:+ "/") with (pre +:+ "/" +:+ "") by reflexivity.
  rewrite split_app_slash. simpl. apply last_last.
Qed.

Lemma split_render (segs : list string) (n : string) :
  Forall proper segs -> proper n ->
  Path.split (render (segs ++ [n])) = ("" :: segs ++ [n])%list.
Proof.
  intros Hs Hn. unfold render.
  change ("/" +:+ Path.join_segs (segs ++ [n]))
    with ("" +:+ "/" +:+ Path.join_segs (segs ++ [n])).
  rewrite split_app_slash, split_join_segs; [reflexivity|..].
  - destruct segs; discriminate.
  - apply Forall_app. split.
    + eapply Forall_impl; [exact Hs|]. intros ? (_ & _ & _ & H). exact H.
    + constructor; [apply Hn|constructor].
Qed.

Lemma render_not_trailing (segs : list string) (n : string) :
  Forall proper segs -> proper n -> endsWith (render (segs ++ [n])) "/" = false.
Proof.
  intros Hs Hn. destruct (endsWith _ "/") eqn:E; [|reflexivity].
  apply endsWith_slash_last in E. rewrite split_render in E by assumption.
  change ("" :: segs ++ [n])%list with (("" :: segs) ++ [n])%list in E.
  rewrite last_last in E. destruct Hn as (Hn & _). congruence.
Qed.

Lemma key_render (cfg : config) (segs : list string) (n : string) :
  Forall proper segs -> proper n ->
  key cfg (render (segs ++ [n])) = (segs ++ [n])%list.
Proof.
  intros Hs Hn. unfold key.
  change (Path.isAbsolute (render (segs ++ [n]))) with true. cbv iota.
  rewrite split_render by assumption.
  change ("" :: segs ++ [n])%list with ([""] ++ (segs ++ [n]))%list.
  unfold Path.norm_segs. rewrite fold_left_app. simpl.
  fold (Path.norm_segs false (segs ++ [n])).
  apply norm_segs_proper, Forall_app. split; [assumption|].
  constructor; [assumption|constructor].
Qed.

(** Joining an entry name to an absolute directory path gives the rendered
    path of the entry. *)
Lemma join_entry (cfg : config) (d n : string) :
  Path.isAbsolute d = true -> proper n ->
  Path.join [d; n] = render (key cfg d ++ [n]).
Proof.
  intros Hd Hn.
  assert (Hdne : d <> "") by (intros ->; discriminate).
  assert (Hnne : n <> "") by apply Hn.
  unfold Path.join. simpl.
  apply String.eqb_neq in Hdne as Ed. apply String.eqb_neq in Hnne as En.
  rewrite Ed, En. simpl.
  change (Path.join_segs [d; n]) with (d +:+ "/" +:+ n).
  unfold Path.normalize.
  assert (String.eqb (d +:+ "/" +:+ n) "" = false) as ->.
  { destruct d; [congruence|reflexivity]. }
  rewrite isAbsolute_app, Hd by assumption. simpl.
  unfold Path.normalizeString.
  destruct Hn as (H1 & H2 & H3 & H4).
  rewrite split_app_slash, (split_no_slash _ H4).
  rewrite norm_segs_snoc by (repeat split; assumption).
  assert (Hk : key cfg d = Path.norm_segs false (Path.split d)).
  { unfold key. rewrite Hd. reflexivity. }
  rewrite <- Hk.
  pose proof (key_proper cfg d) as Hkp.
  assert (Hrn : endsWith (render (key cfg d ++ [n])) "/" = false)
    by (apply render_not_trailing; repeat split; assumption).
  assert (Hjne : String.eqb (Path.join_segs (key cfg d ++ [n])) "" = false).
  { apply String.eqb_neq. intros E.
    pose proof (split_render (key cfg d) n Hkp) as Hsp.
    unfold render in Hsp. rewrite E in Hsp. simpl in Hsp.
    specialize (Hsp (conj H1 (conj H2 (conj H3 H4)))).
    destruct (key cfg d); simpl in Hsp; [congruence|].
    destruct l; discriminate. }
  rewrite Hjne.
  destruct (endsWith (d +:+ "/" +:+ n) "/") eqn:Et; [|reflexivity].
  apply endsWith_slash_last in Et.
  rewrite split_app_slash, (split_no_slash _ H4), last_last in Et. congruence.
Qed.

Lemma key_join_entry (cfg : config) (d n : string) :
  Path.isAbsolute d = true -> proper n ->
  key cfg (Path.join [d; n]) = (key cfg d ++ [n])%list.
Proof.
  intros Hd Hn. rewrite (join_entry cfg) by assumption.
  apply key_render; [apply key_proper|assumption].
Qed.

(** Looking up an entry of an absolute directory by its joined path. *)
Lemma fs_lookup_join_entry (cfg : config) (fs : filesystem) (d n : string) :
  Path.isAbsolute d = true -> proper n ->
  fs_lookup cfg fs (Path.join [d; n]) = fs !! (key cfg d ++ [n])%list.
Proof.
  intros Hd Hn. unfold fs_lookup.
  rewrite key_join_entry by assumption.
  rewrite (join_entry cfg) by assumption.
  rewrite render_not_trailing by (apply key_proper || assumption).
  change (String.eqb (render (key cfg d ++ [n])) "") with false. cbv iota.
  destruct (fs !! _) as [[? ?|? ?]|]; reflexivity.
Qed.

Lemma resolve_loop_absolute (wd : string) (l : list string) (acc : string) :
  Path.isAbsolute wd = true -> (Path.resolve_loop (l ++ [wd]) acc).2 = true.
Proof.
  intros Hwd. revert acc. induction l as [|p l IH]; intros acc; simpl.
  - destruct wd; [discriminate|]. simpl. rewrite Hwd. reflexivity.
  - destruct (String.eqb p ""); [apply IH|].
    destruct (Path.isAbsolute p); [reflexivity|apply IH].
Qed.

Lemma resolve_absolute (wd : string) (args : list string) :
  Path.isAbsolute wd = true -> Path.isAbsolute (Path.resolve wd args) = true.
Proof.
  intros Hwd. unfold Path.resolve.
  pose proof (resolve_loop_absolute wd (List.rev args) "" Hwd) as H.
  destruct (Path.resolve_loop _ _) as [rp abs]. simpl in H. subst abs.
  reflexivity.
Qed.

Lemma safePath_absolute (cfg : config) (base : string) (rel : option string) (p : string) :
  Path.isAbsolute (cwd cfg) = true -> safePath cfg base rel = Some p ->
  Path.isAbsolute p = true.
Proof.
  intros Hwd H. apply safePath_Some in H as (-> & _). apply resolve_absolute, Hwd.
Qed.

(** ** Directory entries *)

Lemma split_last_snoc (pre : list string) (n : string) :
  split_last (pre ++ [n]) = Some (pre, n).
Proof.
  induction pre as [|x pre IH]; [reflexivity|].
  simpl. rewrite IH. destruct (pre ++ [n])%list eqn:E; [|reflexivity].
  destruct pre; discriminate.
Qed.

Lemma split_last_Some (k pre : list string) (n : string) :
  split_last k = Some (pre, n) -> k = (pre ++ [n])%list.
Proof.
  revert pre. induction k as [|x k IH]; intros pre H; [discriminate|].
  simpl in H. destruct k as [|y k].
  - injection H as <- <-. reflexivity.
  - destruct (split_last (y :: k)) as [[pre' l]|]; [|discriminate].
    injection H as <- <-. rewrite (IH pre' eq_refl). reflexivity.
Qed.

(** The entries of a directory are the nodes one segment below it. *)
Lemma elem_of_children (fs : filesystem) (d : list string) (n : string) (v : node) :
  (n, v) ∈ children fs d <-> fs !! (d ++ [n])%list = Some v.
Proof.
  unfold children. rewrite list_elem_of_omap. split.
  - intros ([k v'] & Hin & Hf). simpl in Hf.
    apply elem_of_map_to_list in Hin.
    destruct (split_last k) as [[pre l]|] eqn:E; [|discriminate].
    destruct (decide (pre = d)) as [->|]; [|discriminate].
    injection Hf as -> ->. apply split_last_Some in E. subst k. exact Hin.
  - intros H. exists ((d ++ [n])%list, v). split.
    + apply elem_of_map_to_list, H.
    + simpl. rewrite split_last_snoc. rewrite decide_True by reflexivity.
      reflexivity.
Qed.

Lemma children_proper (fs : filesystem) (d : list string) (n : string) (v : node) :
  wf_disk fs -> (n, v) ∈ children fs d -> proper n.
Proof.
  intros Hwf Hin. apply elem_of_children in Hin. apply Hwf in Hin.
  apply Forall_app in Hin as [_ Hn]. inversion Hn; assumption.
Qed.

Lemma mapM_stat_entries (cfg : config) (fs : filesystem) (dir : string)
    (l : list (string * node)) :
  Path.isAbsolute dir = true ->
  (forall n v, (n, v) ∈ l -> proper n /\ fs !! (key cfg dir ++ [n])%list = Some v) ->
  mapM (fun e : string * bool =>
          stats ← statSync cfg (Path.join [dir; e.1]);
          mret {| fe_name := e.1; fe_isDirectory := e.2;
                  fe_size := st_size stats; fe_modified := st_mtime stats |})
       (List.map (fun e : string * node => (e.1, is_dir e.2)) l) fs
  = (Ret (List.map entry_of l), fs).
Proof.
  intros Hd. induction l as [|[n v] l IH]; intros Hl; [reflexivity|].
  destruct (Hl n v) as [Hn Hv]; [left|].
  assert (Hst : statSync cfg (Path.join [dir; n]) fs = (Ret (stat_of v), fs)).
  { apply statSync_Some. rewrite fs_lookup_join_entry by assumption. exact Hv. }
  simpl. unfold mbind at 1, M_bind at 1.
  rewrite (bind_Ret _ _ _ _ _ Hst). simpl.
  unfold mbind, M_bind in IH |- *.
  rewrite IH; [reflexivity|].
  intros n' v' Hin. apply Hl. right. exact Hin.
Qed.

Section Sorting.

Context {A : Type} (cmp : A -> A -> Z).

Hypothesis cmp_total : forall a b, cmp_le cmp a b \/ cmp_le cmp b a.
Hypothesis cmp_trans :
  forall a b c, cmp_le cmp a b -> cmp_le cmp b c -> cmp_le cmp a c.

Lemma insert_by_perm (x : A) (l : list A) :
  Permutation (JsArray.insert_by cmp x l) (x :: l).
Proof.
  induction l as [|y l IH]; simpl; [reflexivity|].
  destruct (cmp x y <=? 0); [reflexivity|].
  rewrite IH. apply perm_swap.
Qed.

Lemma sort_perm (l : list A) : Permutation (JsArray.sort cmp l) l.
Proof.
  induction l as [|x l IH]; simpl; [reflexivity|].
  fold (JsArray.sort cmp l). rewrite insert_by_perm, IH. reflexivity.
Qed.

Lemma insert_by_sorted (x : A) (l : list A) :
  StronglySorted (cmp_le cmp) l -> StronglySorted (cmp_le cmp) (JsArray.insert_by cmp x l).
Proof.
  induction 1 as [|y l Hs IH Hy]; simpl.
  - constructor; constructor.
  - destruct (Z.leb_spec (cmp x y) 0) as [Hle|Hgt].
    + constructor; [constructor; assumption|].
      constructor; [exact Hle|].
      eapply Forall_impl; [exact Hy|]. intros z Hz. eapply cmp_trans; eauto.
    + constructor; [exact IH|].
      assert (Hyx : cmp_le cmp y x).
      { destruct (cmp_total x y) as [H|H]; [unfold cmp_le in H; lia|exact H]. }
      rewrite (insert_by_perm x l). constructor; assumption.
Qed.

Lemma sort_sorted (l : list A) : StronglySorted (cmp_le cmp) (JsArray.sort cmp l).
Proof.
  induction l as [|x l IH]; simpl; [constructor|].
  apply insert_by_sorted, IH.
Qed.

End Sorting.

Lemma StronglySorted_lookup {A} (R : A -> A -> Prop) (l : list A) :
  StronglySorted R l ->
  forall (i j : nat) a b, l !! i = Some a -> l !! j = Some b -> (i < j)%nat -> R a b.
Proof.
  induction 1 as [|x l Hs IH Hx]; intros i j a b Hi Hj Hlt; [discriminate|].
  destruct j as [|j]; [lia|]. simpl in Hj.
  destruct i as [|i]; simpl in Hi.
  - injection Hi as <-. rewrite Forall_forall in Hx. apply Hx.
    eapply list_elem_of_lookup_2, Hj.
  - apply (IH i j); [assumption..|lia].
Qed.

Lemma Permutation_three {A} (l : list A) (x y z : A) :
  Permutation l [x; y; z] ->
  l = [x; y; z] \/ l = [x; z; y] \/ l = [y; x; z] \/
  l = [z; x; y] \/ l = [y; z; x] \/ l = [z; y; x].
Proof.
  intros H.
  destruct (Permutation_vs_cons_inv H) as (l1 & l2 & ->).
  symmetry in H. apply Permutation_cons_app_inv in H.
  apply Permutation_length_2_inv in H.
  destruct H as [H|H];
    destruct l1 as [|a [|b [|c l1]]]; simplify_eq/=; tauto.
Qed.

(** ** Toggling an entry of the mod root *)

Lemma length_app_string (a b : string) :
  String.length (a +:+ b) = (String.length a + String.length b)%nat.
Proof.
  induction a as [|c a IH]; [reflexivity|].
  change (S (String.length (a +:+ b)) = S (String.length a + String.length b)).
  rewrite IH. reflexivity.
Qed.

Lemma drop_app_string (a b : string) : drop (String.length a) (a +:+ b) = b.
Proof. induction a as [|c a IH]; [reflexivity|exact IH]. Qed.

Lemma startsWith_refl (s : string) : startsWith s s = true.
Proof.
  induction s as [|c s IH]; [reflexivity|].
  simpl. rewrite Ascii.eqb_refl. exact IH.
Qed.

Lemma includes_suffix (pre p : string) : includes (pre +:+ p) p = true.
Proof.
  induction pre as [|c pre IH].
  - change ("" +:+ p) with p.
    destruct p as [|d p]; [reflexivity|].
    change (includes (String d p) (String d p))
      with (if startsWith (String d p) (String d p) then true
            else includes p (String d p)).
    rewrite startsWith_refl. reflexivity.
  - change (includes (String c pre +:+ p) p)
      with (if startsWith (String c pre +:+ p) p then true
            else includes (pre +:+ p) p).
    rewrite IH. destruct (startsWith _ _); reflexivity.
Qed.

(** Replacing an occurrence of the disabled form by [.jar] shortens the
    string by nine characters. *)
Lemma replace_disabled_length (s : string) :
  includes s ".jar.disabled" = true ->
  (String.length (replace s ".jar.disabled" ".jar") + 9 = String.length s)%nat.
Proof.
  induction s as [|c s IH]; intros Hinc; [discriminate|].
  change (includes (String c s) ".jar.disabled")
    with (if startsWith (String c s) ".jar.disabled" then true
          else includes s ".jar.disabled") in Hinc.
  change (replace (String c s) ".jar.disabled" ".jar")
    with (if startsWith (String c s) ".jar.disabled"
          then ".jar" +:+ drop (String.length ".jar.disabled") (String c s)
          else String c (replace s ".jar.disabled" ".jar")).
  destruct (startsWith (String c s) ".jar.disabled") eqn:Es.
  - apply startsWith_prefix in Es as [rest ->].
    rewrite drop_app_string, !length_app_string. simpl. lia.
  - simpl. rewrite <- (IH Hinc). reflexivity.
Qed.

(** The toggle never computes the name it was given. *)
Lemma newName_differs (name new : string) :
  newName name = Some new -> new <> name.
Proof.
  unfold newName. intros H E. subst new.
  destruct (endsWith name ".jar.disabled") eqn:E1.
  - injection H as Hr. apply (f_equal String.length) in Hr.
    apply endsWith_suffix in E1 as [pre ->].
    pose proof (replace_disabled_length _ (includes_suffix pre ".jar.disabled")).
    lia.
  - destruct (endsWith name ".jar"); [|discriminate].
    injection H as Hr. apply (f_equal String.length) in Hr.
    rewrite length_app_string in Hr. simpl in Hr. lia.
Qed.

(** For entry names of an absolute mod root that is a directory, the toggle
    handler returns whenever the old name is a file and the new name is not a
    directory: the file moves to the new name, replacing what was there. *)
Lemma toggleMod_of_entry (cfg : config) (fs : filesystem)
    (name new content : string) (mtime ds dm : Z) :
  let ko := (key cfg (MODS_DIR cfg) ++ [name])%list in
  let kn := (key cfg (MODS_DIR cfg) ++ [new])%list in
  Path.isAbsolute (MODS_DIR cfg) = true -> proper name -> proper new ->
  newName name = Some new ->
  fs !! key cfg (MODS_DIR cfg) = Some (Dir ds dm) ->
  fs !! ko = Some (File content mtime) ->
  (forall s m, fs !! kn <> Some (Dir s m)) ->
  toggleMod cfg name fs
  = (Ret (json (Message ("Renamed to " +:+ new))),
     <[kn := File content mtime]> (delete ko fs)).
Proof.
  intros ko kn Habs Hn Hnew Hnn Hd Hko Hnd.
  assert (Hold : fs_lookup cfg fs (Path.join [MODS_DIR cfg; name])
                 = Some (File content mtime))
    by (rewrite fs_lookup_join_entry by assumption; exact Hko).
  assert (Hne : ko <> kn).
  { unfold ko, kn. intros E. apply app_inv_head in E. injection E as E.
    symmetry in E. exact (newName_differs _ _ Hnn E). }
  unfold toggleMod.
  rewrite (bind_Ret _ _ _ _ _ (existsSync_Some _ _ _ _ Hold)). simpl.
  rewrite Hnn.
  unfold mbind, M_bind, renameSync. rewrite Hold.
  rewrite !key_join_entry by assumption. fold ko kn.
  unfold parent_is_dir, kn. rewrite split_last_snoc, Hd. simpl.
  rewrite (join_entry cfg) by assumption.
  rewrite render_not_trailing by (apply key_proper || assumption).
  fold kn.
  destruct (fs !! kn) as [[c m|s m]|] eqn:En.
  - rewrite decide_False by assumption. reflexivity.
  - exfalso. exact (Hnd s m eq_refl).
  - rewrite decide_False by assumption. reflexivity.
Qed.

(** ** Listing a directory *)

Lemma getFiles_of_directory (cfg : config) (localeCompare : string -> string -> Z)
    (fs : filesystem) (query_path : option string) (dir : string) (ds dm : Z) :
  Path.isAbsolute (cwd cfg) = true -> wf_disk fs ->
  safePath cfg (DATA_DIR cfg) query_path = Some dir ->
  fs_lookup cfg fs dir = Some (Dir ds dm) ->
  getFiles cfg localeCompare query_path fs
  = (Ret (json (Items (JsArray.sort (compareItems localeCompare)
                         (List.map entry_of (children fs (key cfg dir)))))), fs).
Proof.
  intros Hwd Hwf Hp Hd.
  pose proof (safePath_Some _ _ _ _ Hp) as (_ & _ & Hne).
  pose proof (safePath_absolute _ _ _ _ Hwd Hp) as Habs.
  unfold getFiles. rewrite Hp, (falsy_Some _ Hne). simpl.
  rewrite (bind_Ret _ _ _ _ _ (existsSync_Some _ _ _ _ Hd)). simpl.
  unfold try_catch.
  assert (Hrd : readdirSync cfg dir fs
                = (Ret (List.map (fun e : string * node => (e.1, is_dir e.2))
                          (children fs (key cfg dir))), fs)).
  { unfold readdirSync. rewrite Hd. reflexivity. }
  rewrite (bind_Ret _ _ _ _ _ Hrd).
  rewrite (bind_Ret _ _ _ _ _
             (mapM_stat_entries cfg fs dir (children fs (key cfg dir)) Habs
                (fun n v Hin => conj (children_proper _ _ _ _ Hwf Hin)
                                     (proj1 (elem_of_children _ _ _ _) Hin)))).
  reflexivity.
Qed.

Section ListingOrder.

Context (localeCompare : string -> string -> Z).

(** The collation is a total preorder on names. *)
Hypothesis localeCompare_total :
  forall a b, localeCompare a b <= 0 \/ localeCompare b a <= 0.
Hypothesis localeCompare_trans :
  forall a b c, localeCompare a b <= 0 -> localeCompare b c <= 0 ->
                localeCompare a c <= 0.

Lemma compareItems_total (a b : file_entry) :
  cmp_le (compareItems localeCompare) a b \/ cmp_le (compareItems localeCompare) b a.
Proof.
  unfold cmp_le, compareItems.
  destruct (fe_isDirectory a), (fe_isDirectory b); simpl;
    solve [apply localeCompare_total | lia].
Qed.

Lemma compareItems_trans (a b c : file_entry) :
  cmp_le (compareItems localeCompare) a b ->
  cmp_le (compareItems localeCompare) b c ->
  cmp_le (compareItems localeCompare) a c.
Proof.
  unfold cmp_le, compareItems.
  destruct (fe_isDirectory a), (fe_isDirectory b), (fe_isDirectory c); simpl;
    try lia; apply localeCompare_trans.
Qed.

(** C8. For an existing directory of the confined subtree, on a disk whose
    paths are made of entry names, the listing handler answers 200 with the
    immediate children of the directory: the names listed are those one
    segment below it; no file comes before a directory; two entries of the
    same kind are in collation order; and when the children are the file
    [b.txt] and the directories [a] and [c], with [c] collating after [a],
    the names come out as [a], [c], [b.txt], in whatever order the disk
    yields them. *)
Theorem getFiles_directories_first_sorted (cfg : config) (fs : filesystem)
    (query_path : option string) (dir : string) (ds dm : Z) :
  Path.isAbsolute (cwd cfg) = true -> wf_disk fs ->
  safePath cfg (DATA_DIR cfg) query_path = Some dir ->
  fs_lookup cfg fs dir = Some (Dir ds dm) ->
  exists items,
    getFiles cfg localeCompare query_path fs = (Ret (json (Items items)), fs) /\
    Permutation items (List.map entry_of (children fs (key cfg dir))) /\
    (forall n, n ∈ List.map fe_name items <->
               is_Some (fs !! (key cfg dir ++ [n])%list)) /\
    (forall (i j : nat) a b,
       items !! i = Some a -> items !! j = Some b -> (i < j)%nat ->
       (fe_isDirectory b = true -> fe_isDirectory a = true) /\
       (fe_isDirectory a = fe_isDirectory b ->
        localeCompare (fe_name a) (fe_name b) <= 0)) /\
    (forall content mb sa ma sc mc,
       localeCompare "c" "a" > 0 ->
       Permutation (children fs (key cfg dir))
         [("b.txt", File content mb); ("a", Dir sa ma); ("c", Dir sc mc)] ->
       List.map fe_name items = ["a"; "c"; "b.txt"]).
Proof.
  intros Hwd Hwf Hp Hd.
  set (entries := List.map entry_of (children fs (key cfg dir))).
  set (items := JsArray.sort (compareItems localeCompare) entries).
  assert (Hperm : Permutation items entries) by apply sort_perm.
  assert (Hsorted : StronglySorted (cmp_le (compareItems localeCompare)) items)
    by (apply sort_sorted; [apply compareItems_total|apply compareItems_trans]).
  exists items. split; [|split; [|split; [|split]]].
  - apply getFiles_of_directory with (ds := ds) (dm := dm); assumption.
  - exact Hperm.
  - intros n. rewrite Hperm. unfold entries.
    rewrite list_elem_of_fmap. split.
    + intros (e & -> & He). apply list_elem_of_fmap in He as ([n' v] & -> & Hin).
      apply elem_of_children in Hin. simpl. eauto.
    + intros [v Hv]. apply elem_of_children in Hv.
      exists (entry_of (n, v)). split; [reflexivity|].
      apply list_elem_of_fmap. eauto.
  - intros i j a b Ha Hb Hlt.
    pose proof (StronglySorted_lookup _ _ Hsorted i j a b Ha Hb Hlt) as Hle.
    unfold cmp_le, compareItems in Hle.
    destruct (fe_isDirectory a), (fe_isDirectory b); simpl in Hle;
      split; intros; solve [assumption | reflexivity | discriminate | lia].
  - intros content mb sa ma sc mc Hca Hch.
    assert (H3 : Permutation items
                   [entry_of ("b.txt", File content mb);
                    entry_of ("a", Dir sa ma); entry_of ("c", Dir sc mc)]).
    { rewrite Hperm. unfold entries. rewrite Hch. reflexivity. }
    apply Permutation_three in H3.
    destruct H3 as [E|[E|[E|[E|[E|E]]]]]; rewrite E in Hsorted |- *;
      try reflexivity;
      exfalso;
      repeat match goal with
             | H : StronglySorted _ (_ :: _) |- _ =>
                 apply StronglySorted_inv in H as [? ?]
             | H : Forall _ (_ :: _) |- _ =>
                 apply Forall_cons in H as [? ?]
             end;
      unfold cmp_le, compareItems, entry_of in *; simpl in *; lia.
Qed.

End ListingOrder.

Lemma codepointCompare_le (a b : string) :
  codepointCompare a b <= 0 <-> String.le a b.
Proof.
  unfold codepointCompare, String.le, String.leb.
  destruct (String.compare a b); simpl; split; intros; solve [lia | tauto | done].
Qed.

Lemma codepointCompare_total (a b : string) :
  codepointCompare a b <= 0 \/ codepointCompare b a <= 0.
Proof. rewrite !codepointCompare_le. apply String.le_total. Qed.

Lemma codepointCompare_trans (a b c : string) :
  codepointCompare a b <= 0 -> codepointCompare b c <= 0 ->
  codepointCompare a c <= 0.
Proof. rewrite !codepointCompare_le. apply transitivity. Qed.

Ltac solve_proper_key :=
  repeat (apply Forall_cons; split; [unfold proper; repeat split; discriminate|]);
  constructor.

Ltac solve_wf_disk :=
  intros k v H;
  repeat (let Hk := fresh "Hk" in
          rewrite lookup_insert in H; case_decide as Hk;
          [subst k; solve_proper_key|]);
  rewrite lookup_empty in H; discriminate.

Lemma sample_disk_wf : wf_disk sample_disk.
Proof. unfold sample_disk, empty_disk. solve_wf_disk. Qed.

Lemma getFiles_directories_first_sorted_witness :
  exists items,
    getFiles default_config codepointCompare None sample_disk
      = (Ret (json (Items items)), sample_disk) /\
    List.map fe_name items = ["a"; "c"; "b.txt"].
Proof.
  destruct (getFiles_directories_first_sorted codepointCompare
              codepointCompare_total codepointCompare_trans
              default_config sample_disk None "/app/data" 4096 0
              eq_refl sample_disk_wf eq_refl eq_refl)
    as (items & Hrun & _ & _ & _ & Hnames).
  exists items. split; [exact Hrun|].
  apply (Hnames "hello" 5 4096 1 4096 1); [reflexivity|].
  vm_compute. apply perm_skip. apply perm_swap.
Defined.

(** ** Uploading and listing mods *)

Lemma mapM_Ret {A B} (f : A -> M B) (g : A -> B) (l : list A) (fs : filesystem) :
  (forall x, x ∈ l -> f x fs = (Ret (g x), fs)) ->
  mapM f l fs = (Ret (List.map g l), fs).
Proof.
  induction l as [|x l IH]; intros Hl; [reflexivity|].
  simpl. rewrite (bind_Ret _ _ _ _ _ (Hl x (list_elem_of_here _ _))).
  rewrite (bind_Ret _ _ _ _ _ (IH (fun y Hy => Hl y (list_elem_of_further _ _ _ Hy)))).
  reflexivity.
Qed.

Lemma wf_disk_insert (fs : filesystem) (k : list string) (v : node) :
  wf_disk fs -> Forall proper k -> wf_disk (<[k := v]> fs).
Proof.
  intros Hwf Hk k' v' H. rewrite lookup_insert in H.
  case_decide; [subst; exact Hk|]. eapply Hwf, H.
Qed.

(** On a disk of entry names whose mod root is a directory, the mod listing
    answers with the entries of the two name forms. *)
Lemma getMods_of_directory (cfg : config) (fs : filesystem) (ds dm : Z) :
  Path.isAbsolute (MODS_DIR cfg) = true -> wf_disk fs ->
  fs !! key cfg (MODS_DIR cfg) = Some (Dir ds dm) ->
  getMods cfg fs
  = (Ret (json (Mods (List.map (mod_entry_of cfg fs)
                        (List.filter
                           (fun f => endsWith f ".jar" || endsWith f ".jar.disabled")
                           (List.map fst (children fs (key cfg (MODS_DIR cfg)))))))),
     fs).
Proof.
  intros Habs Hwf Hd.
  assert (Hl : fs_lookup cfg fs (MODS_DIR cfg) = Some (Dir ds dm)).
  { unfold fs_lookup. rewrite Hd.
    destruct (MODS_DIR cfg); [discriminate|reflexivity]. }
  unfold getMods.
  assert (Hrd : readdirSync cfg (MODS_DIR cfg) fs
                = (Ret (List.map (fun e : string * node => (e.1, is_dir e.2))
                          (children fs (key cfg (MODS_DIR cfg)))), fs)).
  { unfold readdirSync. rewrite Hl. reflexivity. }
  rewrite (bind_Ret _ _ _ _ _ Hrd).
  rewrite List.map_map. simpl.
  erewrite bind_Ret; [reflexivity|].
  apply mapM_Ret. intros f Hf.
  apply list_elem_of_In, List.filter_In in Hf as [Hf _].
  apply list_elem_of_In, list_elem_of_fmap in Hf as ([n v] & -> & Hin). simpl.
  pose proof (children_proper _ _ _ _ Hwf Hin) as Hn.
  apply elem_of_children in Hin.
  erewrite bind_Ret.
  2:{ apply statSync_Some. rewrite fs_lookup_join_entry by assumption. exact Hin. }
  unfold mod_entry_of. rewrite Hin. reflexivity.
Qed.







(** * Further properties of the service *)

(** ** Resolved paths *)

Lemma join_segs_cons (x : string) (l : list string) :
  l <> [] -> Path.join_segs (x :: l) = x +:+ "/" +:+ Path.join_segs l.
Proof. destruct l; [congruence|reflexivity]. Qed.

Lemma join_segs_app (a b : list string) :
  a <> [] -> b <> [] ->
  Path.join_segs (a ++ b) = Path.join_segs a +:+ "/" +:+ Path.join_segs b.
Proof.
  intros Ha Hb. induction a as [|x a IH]; [congruence|].
  destruct a as [|y a].
  - simpl. apply join_segs_cons, Hb.
  - change ((x :: y :: a) ++ b)%list with (x :: ((y :: a) ++ b))%list.
    rewrite join_segs_cons by discriminate.
    rewrite IH by discriminate.
    rewrite (join_segs_cons x (y :: a)) by discriminate.
    rewrite !append_assoc. reflexivity.
Qed.

Lemma key_render_all (cfg : config) (segs : list string) :
  Forall proper segs -> key cfg (render segs) = segs.
Proof.
  intros Hs. induction segs as [|n l _] using rev_ind.
  - reflexivity.
  - apply Forall_app in Hs as [Hl Hn]. inversion Hn; subst.
    apply key_render; assumption.
Qed.

(** In a process whose working directory is absolute, [path.resolve] gives
    the rendering of a list of entry names. *)
Lemma resolve_is_render (wd : string) (args : list string) :
  Path.isAbsolute wd = true ->
  exists segs, Forall proper segs /\ Path.resolve wd args = render segs.
Proof.
  intros Hwd. unfold Path.resolve.
  pose proof (resolve_loop_absolute wd (List.rev args) "" Hwd) as H.
  destruct (Path.resolve_loop _ _) as [rp abs]. simpl in H. subst abs.
  exists (Path.norm_segs false (Path.split rp)).
  split; [apply norm_segs_split_proper|reflexivity].
Qed.

Lemma safePath_render (cfg : config) (base : string) (rel : option string) (p : string) :
  Path.isAbsolute (cwd cfg) = true -> safePath cfg base rel = Some p ->
  p = render (key cfg p).
Proof.
  intros Hwd H. apply safePath_Some in H as (-> & _).
  destruct (resolve_is_render (cwd cfg) [base; or_empty rel] Hwd) as (segs & Hs & ->).
  rewrite key_render_all by assumption. reflexivity.
Qed.

Lemma split_trailing_empty (a : string) :
  Path.split (a +:+ "/" +:+ "") = (Path.split a ++ [""])%list.
Proof. apply split_app_slash. Qed.

Lemma fold_norm_skip_empty (b : bool) (l stack : list string) :
  fold_left (Path.norm_step b) (l ++ [""]) stack = fold_left (Path.norm_step b) l stack.
Proof. rewrite fold_left_app. reflexivity. Qed.

(** The resolution of an absolute root alone. *)
Lemma resolve_absolute_base (cfg : config) (base : string) :
  Path.isAbsolute base = true ->
  Path.resolve (cwd cfg) [base] = render (key cfg base).
Proof.
  intros Hb.
  assert (Hbne : String.eqb base "" = false)
    by (destruct base; [discriminate|reflexivity]).
  assert (Hloop : Path.resolve_loop (List.rev [base] ++ [cwd cfg]) ""
                  = (base +:+ "/" +:+ "", true)).
  { change (List.rev [base] ++ [cwd cfg])%list with [base; cwd cfg].
    cbn [Path.resolve_loop]. rewrite Hbne, Hb. reflexivity. }
  unfold Path.resolve. rewrite Hloop. cbn [negb].
  unfold render, Path.normalizeString, key. rewrite Hb.
  rewrite split_trailing_empty. unfold Path.norm_segs.
  rewrite fold_norm_skip_empty. reflexivity.
Qed.

Lemma join_segs_relative (x : string) (l : list string) :
  proper x ->
  Path.join_segs (x :: l) <> "" /\ Path.isAbsolute (Path.join_segs (x :: l)) = false.
Proof.
  intros (Hne & _ & _ & Hs).
  destruct x as [|c x]; [congruence|].
  simpl in Hs. destruct (Ascii.eqb c "/") eqn:E; [discriminate|].
  assert (Habs : forall rest, Path.isAbsolute (String c rest) = false).
  { intros rest.
    change (Path.isAbsolute (String c rest))
      with (if Ascii.eqb "/" c then startsWith rest "" else false).
    rewrite Ascii.eqb_sym, E. reflexivity. }
  destruct l as [|y l].
  - split; [discriminate|apply Habs].
  - split; [discriminate|apply (Habs (x +:+ "/" +:+ Path.join_segs (y :: l)))].
Qed.

(** The resolution of entry names against an absolute root. *)
Lemma resolve_descendant (cfg : config) (base : string) (segs : list string) :
  Path.isAbsolute base = true -> Forall proper segs -> segs <> [] ->
  Path.resolve (cwd cfg) [base; Path.join_segs segs] = render (key cfg base ++ segs).
Proof.
  intros Hb Hs Hne.
  destruct segs as [|x segs]; [congruence|].
  inversion Hs as [|? ? Hx Hs']; subst.
  destruct (join_segs_relative x segs Hx) as [Hjne Hrel].
  assert (Hbne : String.eqb base "" = false)
    by (destruct base; [discriminate|reflexivity]).
  apply String.eqb_neq in Hjne.
  assert (Hloop : Path.resolve_loop
                    (List.rev [base; Path.join_segs (x :: segs)] ++ [cwd cfg]) ""
                  = (base +:+ "/" +:+ (Path.join_segs (x :: segs) +:+ "/" +:+ ""), true)).
  { change (List.rev [base; Path.join_segs (x :: segs)] ++ [cwd cfg])%list
      with [Path.join_segs (x :: segs); base; cwd cfg].
    cbn [Path.resolve_loop]. rewrite Hjne, Hrel, Hbne, Hb. reflexivity. }
  unfold Path.resolve. rewrite Hloop. cbn [negb].
  unfold render, Path.normalizeString. f_equal. f_equal.
  rewrite split_app_slash, split_trailing_empty.
  rewrite split_join_segs.
  2: discriminate.
  2:{ eapply Forall_impl; [exact Hs|]. intros ? (_ & _ & _ & H). exact H. }
  unfold key. rewrite Hb. unfold Path.norm_segs.
  rewrite app_assoc, fold_norm_skip_empty, fold_left_app.
  rewrite fold_norm_proper by assumption.
  rewrite rev_app_distr, rev_involutive. reflexivity.
Qed.

Lemma render_snoc_prefix (k rest : list string) :
  startsWith (render (k ++ rest)) (render k) = true.
Proof.
  unfold render. destruct rest as [|y rest].
  - rewrite app_nil_r. apply startsWith_refl.
  - destruct k as [|x k].
    + apply (startsWith_app "/").
    + rewrite join_segs_app by discriminate.
      rewrite <- append_assoc. apply startsWith_app.
Qed.

(** X1. A request without a path, or with the empty path, is confined to the
    root itself: the confiner returns the resolved root. *)
Theorem safePath_empty_is_root (cfg : config) (base : string) :
  safePath cfg base None = Some (Path.resolve (cwd cfg) [base]) /\
  safePath cfg base (Some "") = Some (Path.resolve (cwd cfg) [base]).
Proof.
  assert (H : Path.resolve (cwd cfg) [base; ""] = Path.resolve (cwd cfg) [base])
    by reflexivity.
  unfold safePath. simpl or_empty. rewrite H, startsWith_refl. split; reflexivity.
Qed.

(** X2. Below an absolute root, every path made of entry names is accepted
    by the confiner, and resolves to the root followed by those names. *)
Theorem safePath_accepts_descendants (cfg : config) (base : string)
    (segs : list string) :
  Path.isAbsolute base = true -> Forall proper segs ->
  safePath cfg base (Some (Path.join_segs segs))
    = Some (render (key cfg base ++ segs)).
Proof.
  intros Hb Hs. unfold safePath. simpl or_empty.
  rewrite (resolve_absolute_base cfg base Hb).
  destruct segs as [|x segs].
  - change (Path.resolve (cwd cfg) [base; Path.join_segs []])
      with (Path.resolve (cwd cfg) [base]).
    rewrite (resolve_absolute_base cfg base Hb), app_nil_r, startsWith_refl.
    reflexivity.
  - rewrite resolve_descendant by (assumption || discriminate).
    rewrite render_snoc_prefix. reflexivity.
Qed.

Lemma safePath_accepts_descendants_witness :
  safePath default_config "/app/data" (Some "world/region/r.0.0.mca")
    = Some "/app/data/world/region/r.0.0.mca".
Proof.
  apply (safePath_accepts_descendants default_config "/app/data"
           ["world"; "region"; "r.0.0.mca"] eq_refl).
  repeat (apply Forall_cons; split; [unfold proper; repeat split; discriminate|]).
  constructor.
Defined.

Lemma startsWith_length (s p : string) :
  startsWith s p = true -> (String.length p <= String.length s)%nat.
Proof.
  intros H. apply startsWith_prefix in H as [rest ->].
  rewrite length_app_string. lia.
Qed.

Lemma render_length_lt (k rest : list string) :
  Forall proper rest -> rest <> [] ->
  (String.length (render k) < String.length (render (k ++ rest)))%nat.
Proof.
  intros Hr Hne. unfold render.
  destruct rest as [|x rest]; [congruence|].
  destruct k as [|y k].
  - inversion Hr as [|? ? (Hx & _) _]; subst.
    destruct x as [|c x]; [congruence|].
    destruct rest; simpl; lia.
  - rewrite join_segs_app by discriminate.
    change (String.length ("/" +:+ ?a)) with (S (String.length a)).
    rewrite !length_app_string. simpl. lia.
Qed.

(** The key of an accepted path is never strictly above the key of the
    resolved root. *)
Lemma safePath_not_above_root (cfg : config) (base : string) (rel : option string)
    (p : string) (rest : list string) :
  Path.isAbsolute (cwd cfg) = true -> safePath cfg base rel = Some p ->
  key cfg (Path.resolve (cwd cfg) [base]) = (key cfg p ++ rest)%list ->
  rest = [] /\ p = Path.resolve (cwd cfg) [base].
Proof.
  intros Hwd Hp Hk.
  pose proof (safePath_render _ _ _ _ Hwd Hp) as Hrender.
  apply safePath_Some in Hp as (_ & Hpre & _).
  destruct (resolve_is_render (cwd cfg) [base] Hwd) as (R & HR & Hroot).
  rewrite Hroot in Hk, Hpre |- *. rewrite key_render_all in Hk by assumption.
  subst R. apply Forall_app in HR as [_ Hrest].
  destruct rest as [|x rest].
  - rewrite app_nil_r. split; [reflexivity|exact Hrender].
  - exfalso. apply startsWith_length in Hpre.
    pose proof (render_length_lt (key cfg p) (x :: rest) Hrest) as Hlt.
    rewrite <- Hrender in Hlt. specialize (Hlt ltac:(discriminate)). lia.
Qed.

(** X3. The confiner never returns a path strictly above the root: the
    resolved root is never a place below an accepted path. *)
Theorem safePath_never_above_root (cfg : config) (base : string)
    (rel : option string) (p : string) :
  Path.isAbsolute (cwd cfg) = true -> safePath cfg base rel = Some p ->
  forall rest, rest <> [] ->
    key cfg (Path.resolve (cwd cfg) [base]) <> (key cfg p ++ rest)%list.
Proof.
  intros Hwd Hp rest Hne Hk.
  destruct (safePath_not_above_root _ _ _ _ _ Hwd Hp Hk) as [E _]. exact (Hne E).
Qed.

Lemma safePath_never_above_root_witness :
  safePath default_config "/app/data" (Some "..") = None /\
  forall rest, rest <> [] -> ["app"; "data"] <> (["app"; "data"; "a"] ++ rest)%list.
Proof.
  split; [reflexivity|].
  exact (safePath_never_above_root default_config "/app/data" (Some "a")
           "/app/data/a" eq_refl eq_refl).
Defined.

(** ** Deleting in the file tree *)

Lemma strip_prefix_Some (a k r : list string) :
  strip_prefix a k = Some r -> k = (a ++ r)%list.
Proof.
  revert k. induction a as [|x a IH]; intros k H; simpl in H.
  - injection H as ->. reflexivity.
  - destruct k as [|y k]; [discriminate|].
    destruct (String.eqb_spec x y); [|discriminate].
    subst y. rewrite (IH _ H). reflexivity.
Qed.

Lemma strip_prefix_app (a r : list string) : strip_prefix a (a ++ r) = Some r.
Proof.
  induction a as [|x a IH]; [reflexivity|].
  simpl. rewrite String.eqb_refl. exact IH.
Qed.

(** The three answers of the delete handler; it never throws. *)
Lemma deleteFile_outcome (cfg : config) (fs : filesystem) (query_path : option string) :
  let root := Path.resolve (cwd cfg) [DATA_DIR cfg] in
  match safePath cfg (DATA_DIR cfg) query_path with
  | None => deleteFile cfg query_path fs = (Ret (status_json 400 (Error "Invalid path")), fs)
  | Some p =>
      if String.eqb p root
      then deleteFile cfg query_path fs
           = (Ret (status_json 400 (Error "Invalid path")), fs)
      else
        match fs_lookup cfg fs p with
        | None => deleteFile cfg query_path fs
                  = (Ret (status_json 404 (Error "Not found")), fs)
        | Some n => deleteFile cfg query_path fs
                    = (Ret (json (Message ("Deleted " +:+ Path.basename p))),
                       removed cfg p n fs)
        end
  end.
Proof.
  intros root. unfold deleteFile.
  destruct (safePath cfg (DATA_DIR cfg) query_path) as [p|] eqn:Hp; [|reflexivity].
  pose proof (safePath_Some _ _ _ _ Hp) as (_ & _ & Hne).
  rewrite (falsy_Some _ Hne). cbn [or_empty orb]. fold root.
  destruct (String.eqb p root); [reflexivity|].
  destruct (fs_lookup cfg fs p) as [n|] eqn:Hl.
  - rewrite (bind_Ret _ _ _ _ _ (existsSync_Some _ _ _ _ Hl)). cbn [negb].
    rewrite (bind_Ret _ _ _ _ _ (statSync_Some _ _ _ _ Hl)).
    unfold removed. destruct n as [c m|s m]; simpl.
    + unfold mbind, M_bind, unlinkSync. rewrite Hl. reflexivity.
    + reflexivity.
  - rewrite (bind_Ret _ _ _ _ _ (existsSync_None _ _ _ Hl)). reflexivity.
Qed.

(** X4. The delete handler never removes the data root nor a directory above
    it: whatever the request and its answer, a node at or above the resolved
    root is still there afterwards. *)
Theorem deleteFile_keeps_root (cfg : config) (fs fs' : filesystem)
    (query_path : option string) (o : outcome response)
    (k rest : list string) (v : node) :
  Path.isAbsolute (cwd cfg) = true ->
  deleteFile cfg query_path fs = (o, fs') ->
  key cfg (Path.resolve (cwd cfg) [DATA_DIR cfg]) = (k ++ rest)%list ->
  fs !! k = Some v ->
  fs' !! k = Some v.
Proof.
  intros Hwd Hrun Hk Hv.
  pose proof (deleteFile_outcome cfg fs query_path) as Hout. simpl in Hout.
  destruct (safePath cfg (DATA_DIR cfg) query_path) as [p|] eqn:Hp;
    [|rewrite Hout in Hrun; congruence].
  destruct (String.eqb_spec p (Path.resolve (cwd cfg) [DATA_DIR cfg])) as [|Hne];
    [rewrite Hout in Hrun; congruence|].
  destruct (fs_lookup cfg fs p) as [n|]; [|rewrite Hout in Hrun; congruence].
  rewrite Hout in Hrun. injection Hrun as _ <-.
  assert (Hnot : strip_prefix (key cfg p) k = None).
  { destruct (strip_prefix (key cfg p) k) as [r|] eqn:E; [|reflexivity].
    apply strip_prefix_Some in E. subst k. rewrite <- app_assoc in Hk.
    destruct (safePath_not_above_root _ _ _ _ _ Hwd Hp Hk) as [_ ->]. congruence. }
  unfold removed. destruct (is_dir n).
  - apply map_lookup_filter_Some. split; assumption.
  - rewrite lookup_delete_ne; [exact Hv|].
    intros E. subst k.
    pose proof (strip_prefix_app (key cfg p) []) as H.
    rewrite app_nil_r in H. congruence.
Qed.

Lemma deleteFile_keeps_root_witness :
  answer (deleteFile default_config (Some "c")) sample_disk
    = json (Message "Deleted c") /\
  run (deleteFile default_config (Some "c")) sample_disk !! ["app"; "data"]
    = Some (Dir 4096 0).
Proof.
  split; [vm_compute; reflexivity|].
  apply (deleteFile_keeps_root default_config sample_disk
           (run (deleteFile default_config (Some "c")) sample_disk) (Some "c")
           (Ret (answer (deleteFile default_config (Some "c")) sample_disk))
           ["app"; "data"] [] (Dir 4096 0) eq_refl);
    vm_compute; reflexivity.
Defined.




(** ** Handlers that only read *)

Lemma reads_only_ret {A} (a : A) : reads_only (mret a : M A).
Proof. intros fs. reflexivity. Qed.

Lemma reads_only_bind {A B} (m : M A) (f : A -> M B) :
  reads_only m -> (forall a, reads_only (f a)) -> reads_only (m ≫= f).
Proof.
  intros Hm Hf fs. unfold mbind, M_bind.
  specialize (Hm fs). destruct (m fs) as [[a|e] fs1]; simpl in Hm; subst fs1.
  - apply Hf.
  - reflexivity.
Qed.

Lemma reads_only_try_catch {A} (m : M A) (h : string -> M A) :
  reads_only m -> (forall e, reads_only (h e)) -> reads_only (try_catch m h).
Proof.
  intros Hm Hh fs. unfold try_catch.
  specialize (Hm fs). destruct (m fs) as [[a|e] fs1]; simpl in Hm; subst fs1.
  - reflexivity.
  - apply Hh.
Qed.

Lemma reads_only_mapM {A B} (f : A -> M B) (l : list A) :
  (forall x, reads_only (f x)) -> reads_only (mapM f l).
Proof.
  intros Hf. induction l as [|x l IH]; simpl.
  - apply reads_only_ret.
  - apply reads_only_bind; [apply Hf|]. intros y.
    apply reads_only_bind; [exact IH|]. intros ys. apply reads_only_ret.
Qed.

Lemma reads_only_existsSync (cfg : config) (p : string) : reads_only (existsSync cfg p).
Proof. intros fs. reflexivity. Qed.

Lemma reads_only_statSync (cfg : config) (p : string) : reads_only (statSync cfg p).
Proof. intros fs. unfold statSync. destruct (fs_lookup cfg fs p); reflexivity. Qed.

Lemma reads_only_readdirSync (cfg : config) (p : string) : reads_only (readdirSync cfg p).
Proof.
  intros fs. unfold readdirSync. destruct (fs_lookup cfg fs p) as [[? ?|? ?]|]; reflexivity.
Qed.

Lemma reads_only_readFileSync (cfg : config) (p : string) : reads_only (readFileSync cfg p).
Proof.
  intros fs. unfold readFileSync. destruct (fs_lookup cfg fs p) as [[? ?|? ?]|]; reflexivity.
Qed.

Ltac solve_reads_only :=
  repeat first
    [ apply reads_only_ret
    | apply reads_only_existsSync
    | apply reads_only_statSync
    | apply reads_only_readdirSync
    | apply reads_only_readFileSync
    | apply reads_only_mapM; intros
    | apply reads_only_try_catch; [|intros]
    | apply reads_only_bind; [|intros]
    | match goal with
      | |- reads_only (if ?b then _ else _) => destruct b
      end ].

(** X6. The handlers that list the mods, list a directory and read a file
    never change the disk, whatever the request and whatever they answer. *)
Theorem listing_and_reading_leave_disk (cfg : config)
    (localeCompare : string -> string -> Z) (query_path : option string) :
  reads_only (getMods cfg) /\
  reads_only (getFiles cfg localeCompare query_path) /\
  reads_only (readFile cfg query_path).
Proof.
  split; [|split].
  - unfold getMods. solve_reads_only.
  - unfold getFiles. solve_reads_only.
  - unfold readFile. solve_reads_only.
Qed.

(** ** Answers of the listing and of the read *)

(** X7. For a confined path, the directory listing answers 404 when the path
    names nothing, and 500 when it names a file: the failure of reading a
    file as a directory is caught and reported; the disk is unchanged. *)
Theorem getFiles_not_a_directory (cfg : config)
    (localeCompare : string -> string -> Z) (fs : filesystem)
    (query_path : option string) (dir : string) :
  safePath cfg (DATA_DIR cfg) query_path = Some dir ->
  (fs_lookup cfg fs dir = None ->
   getFiles cfg localeCompare query_path fs
     = (Ret (status_json 404 (Error "Directory not found")), fs)) /\
  (forall content mtime,
     fs_lookup cfg fs dir = Some (File content mtime) ->
     exists message,
       getFiles cfg localeCompare query_path fs
         = (Ret (status_json 500 (Error message)), fs)).
Proof.
  intros Hp.
  pose proof (safePath_Some _ _ _ _ Hp) as (_ & _ & Hne).
  unfold getFiles. rewrite Hp, (falsy_Some _ Hne). cbn [or_empty].
  split.
  - intros Hl. rewrite (bind_Ret _ _ _ _ _ (existsSync_None _ _ _ Hl)). reflexivity.
  - intros content mtime Hl.
    rewrite (bind_Ret _ _ _ _ _ (existsSync_Some _ _ _ _ Hl)). cbn [negb].
    unfold try_catch, mbind, M_bind, readdirSync. rewrite Hl. eauto.
Qed.

Lemma getFiles_not_a_directory_witness :
  getFiles default_config codepointCompare (Some "missing") sample_disk
    = (Ret (status_json 404 (Error "Directory not found")), sample_disk) /\
  exists message,
    getFiles default_config codepointCompare (Some "b.txt") sample_disk
      = (Ret (status_json 500 (Error message)), sample_disk).
Proof.
  split.
  - apply (getFiles_not_a_directory default_config codepointCompare sample_disk
             (Some "missing") "/app/data/missing" eq_refl). reflexivity.
  - apply (getFiles_not_a_directory default_config codepointCompare sample_disk
             (Some "b.txt") "/app/data/b.txt" eq_refl) with (content := "hello") (mtime := 5).
    reflexivity.
Defined.


(** ** Creating directories *)











(** ** The directory of a path *)








(** ** Writing and creating files *)

Lemma writeFile_Ret (cfg : config) (now : Z) (p content : string)
    (fs fs' : filesystem) (u : unit) :
  writeFile cfg now p content fs = (Ret u, fs') ->
  fs' = <[key cfg p := File content now]> fs /\
  fs_lookup cfg fs' p = Some (File content now).
Proof.
  unfold writeFile. intros H.
  destruct (String.eqb p "") eqn:E1; [discriminate|].
  destruct (endsWith p "/") eqn:E2; [discriminate|]. simpl in H.
  destruct (negb (parent_is_dir fs (key cfg p))); [discriminate|].
  assert (fs' = <[key cfg p := File content now]> fs) as ->
    by (destruct (fs !! key cfg p) as [[? ?|? ?]|]; congruence).
  split; [reflexivity|].
  unfold fs_lookup. rewrite E1, lookup_insert_eq, E2. reflexivity.
Qed.









(** ** Creating files *)




(** ** Toggling and listing mods *)

Lemma has_slash_app (a b : string) :
  has_slash (a +:+ b) = has_slash a || has_slash b.
Proof.
  induction a as [|c a IH]; [reflexivity|].
  change (has_slash (String c a +:+ b))
    with (if Ascii.eqb c "/" then true else has_slash (a +:+ b)).
  simpl has_slash. rewrite IH. destruct (Ascii.eqb c "/"); reflexivity.
Qed.

Lemma proper_disabled (base : string) :
  proper (base +:+ ".jar") -> proper (base +:+ ".jar.disabled").
Proof.
  intros (_ & _ & _ & Hs). rewrite has_slash_app in Hs.
  apply orb_false_iff in Hs as [Hs _].
  assert (Hlen : (13 <= String.length (base +:+ ".jar.disabled"))%nat)
    by (rewrite length_app_string; simpl; lia).
  repeat split; try (intros E; rewrite E in Hlen; simpl in Hlen; lia).
  rewrite has_slash_app, Hs. reflexivity.
Qed.

Lemma disabled_not_enabled (base : string) :
  endsWith (base +:+ ".jar.disabled") ".jar" = false.
Proof.
  destruct (endsWith _ _) eqn:E; [|reflexivity].
  apply endsWith_suffix in E as [pre E].
  apply (f_equal last_ascii) in E.
  rewrite !last_ascii_app in E by discriminate. discriminate.
Qed.

(** X14. For a base name in which the disabled form does not occur, the new
    name of [base.jar] is [base.jar.disabled] and the new name of
    [base.jar.disabled] is [base.jar]: computing the new name twice gives the
    name back, and exactly one of the two names counts as enabled. *)
Theorem newName_involutive_on_plain_names (base : string) :
  includes base ".jar.disabled" = false ->
  (newName (base +:+ ".jar") ≫= newName) = Some (base +:+ ".jar") /\
  (newName (base +:+ ".jar.disabled") ≫= newName) = Some (base +:+ ".jar.disabled") /\
  endsWith (base +:+ ".jar") ".jar" = true /\
  endsWith (base +:+ ".jar.disabled") ".jar" = false.
Proof.
  intros Hinc.
  destruct (newName_exchanges_plain_forms base Hinc) as [H1 H2].
  rewrite H1, H2. simpl. rewrite H1, H2.
  repeat split; [apply endsWith_app|apply disabled_not_enabled].
Qed.

Lemma newName_involutive_on_plain_names_witness :
  (newName "coolmod.jar" ≫= newName) = Some "coolmod.jar" /\
  (newName "coolmod.jar.disabled" ≫= newName) = Some "coolmod.jar.disabled".
Proof.
  destruct (newName_involutive_on_plain_names "coolmod" eq_refl) as (H1 & H2 & _).
  split; [exact H1|exact H2].
Defined.

Lemma snoc_ne_self (k : list string) (n : string) : (k ++ [n])%list <> k.
Proof.
  intros E. apply (f_equal length) in E. rewrite length_app in E. simpl in E. lia.
Qed.

Lemma snoc_inj (k : list string) (a b : string) :
  (k ++ [a])%list = (k ++ [b])%list -> a = b.
Proof. intros E. apply app_inv_head in E. congruence. Qed.



Lemma wf_disk_delete (fs : filesystem) (k : list string) :
  wf_disk fs -> wf_disk (delete k fs).
Proof.
  intros Hwf k' v H. apply lookup_delete_Some in H as [_ H]. eapply Hwf, H.
Qed.

Lemma elem_of_mod_list (cfg : config) (fs : filesystem) (e : mod_entry) :
  e ∈ List.map (mod_entry_of cfg fs)
        (List.filter (fun f => endsWith f ".jar" || endsWith f ".jar.disabled")
           (List.map fst (children fs (key cfg (MODS_DIR cfg)))))
  <-> exists n v,
        fs !! (key cfg (MODS_DIR cfg) ++ [n])%list = Some v /\
        mod_name n = true /\ e = mod_record n v.
Proof.
  rewrite list_elem_of_fmap. split.
  - intros (n & -> & Hn).
    apply list_elem_of_In, List.filter_In in Hn as [Hn Hm].
    apply list_elem_of_In, list_elem_of_fmap in Hn as ([n' v] & -> & Hin).
    apply elem_of_children in Hin. simpl in *.
    exists n', v. split; [exact Hin|]. split; [exact Hm|].
    unfold mod_entry_of, mod_record. rewrite Hin. reflexivity.
  - intros (n & v & Hv & Hm & ->). exists n. split.
    + unfold mod_entry_of, mod_record. rewrite Hv. reflexivity.
    + apply list_elem_of_In, List.filter_In. split; [|exact Hm].
      apply list_elem_of_In, list_elem_of_fmap. exists (n, v). split; [reflexivity|].
      apply elem_of_children, Hv.
Qed.

(** X16. On a disk of entry names whose absolute mod root is a directory, the
    mod listing answers 200 with exactly the entries of the mod root whose
    name ends in [.jar] or [.jar.disabled], files or not, each with the size
    and time stamp of its node and enabled exactly when the name ends in
    [.jar]. *)
Theorem getMods_lists_exactly (cfg : config) (fs : filesystem) (ds dm : Z) :
  Path.isAbsolute (MODS_DIR cfg) = true -> wf_disk fs ->
  fs !! key cfg (MODS_DIR cfg) = Some (Dir ds dm) ->
  exists mods,
    getMods cfg fs = (Ret (json (Mods mods)), fs) /\
    forall e, e ∈ mods <->
      exists n v,
        fs !! (key cfg (MODS_DIR cfg) ++ [n])%list = Some v /\
        mod_name n = true /\ e = mod_record n v.
Proof.
  intros Habs Hwf Hd. eexists. split.
  - apply (getMods_of_directory cfg fs ds dm); assumption.
  - intros e. apply elem_of_mod_list.
Qed.

Lemma getMods_lists_exactly_witness :
  exists mods,
    getMods default_config cool_both = (Ret (json (Mods mods)), cool_both) /\
    mod_record "coolmod.jar.disabled" (File "v1" 1) ∈ mods /\
    mod_record "coolmod.jar" (File "v2" 2) ∈ mods.
Proof.
  assert (Hwf : wf_disk cool_both).
  { assert (E : cool_both
                = <[ ["app"; "mods"; "coolmod.jar"] := File "v2" 2 ]>
                  (<[ ["app"; "mods"; "coolmod.jar.disabled"] := File "v1" 1 ]>
                   empty_disk)) by (vm_compute; reflexivity).
    rewrite E. unfold empty_disk. solve_wf_disk. }
  destruct (getMods_lists_exactly default_config cool_both 4096 0 eq_refl Hwf eq_refl)
    as (mods & Hrun & Hin).
  exists mods. split; [exact Hrun|].
  split; apply Hin.
  - exists "coolmod.jar.disabled", (File "v1" 1). repeat split; reflexivity.
  - exists "coolmod.jar", (File "v2" 2). repeat split; reflexivity.
Defined.

(** X17. Whatever the name and the disk, deleting a mod either leaves the
    disk as it is or removes exactly the one file that the joined path
    names: it never removes a directory nor a second node. *)
Theorem deleteMod_removes_at_most_one_file (cfg : config) (name : string)
    (fs fs' : filesystem) (o : outcome response) :
  deleteMod cfg name fs = (o, fs') ->
  fs' = fs \/
  exists content mtime,
    fs !! key cfg (Path.join [MODS_DIR cfg; name]) = Some (File content mtime) /\
    fs' = delete (key cfg (Path.join [MODS_DIR cfg; name])) fs.
Proof.
  unfold deleteMod. cbv zeta. set (p := Path.join [MODS_DIR cfg; name]).
  intros Hrun.
  destruct (fs_lookup cfg fs p) as [n|] eqn:Hl.
  - rewrite (bind_Ret _ _ _ _ _ (existsSync_Some _ _ _ _ Hl)) in Hrun.
    cbn [negb] in Hrun. unfold mbind, M_bind, unlinkSync in Hrun.
    rewrite Hl in Hrun. destruct n as [c m|s m].
    + injection Hrun as _ <-. right. exists c, m.
      split; [apply (fs_lookup_key _ _ _ _ Hl)|reflexivity].
    + injection Hrun as _ <-. left. reflexivity.
  - rewrite (bind_Ret _ _ _ _ _ (existsSync_None _ _ _ Hl)) in Hrun.
    injection Hrun as _ <-. left. reflexivity.
Qed.

(** X18. Deleting a mod file by its entry name answers 200 and removes that
    file only; the mod listing that follows shows the entries it showed
    before without the deleted name. *)
Theorem deleteMod_then_getMods (cfg : config) (fs : filesystem)
    (name content : string) (mtime ds dm : Z) :
  Path.isAbsolute (MODS_DIR cfg) = true -> wf_disk fs -> proper name ->
  fs !! key cfg (MODS_DIR cfg) = Some (Dir ds dm) ->
  fs !! (key cfg (MODS_DIR cfg) ++ [name])%list = Some (File content mtime) ->
  exists fs' mods mods',
    deleteMod cfg name fs = (Ret (json (Message ("Deleted " +:+ name))), fs') /\
    fs' = delete (key cfg (MODS_DIR cfg) ++ [name])%list fs /\
    getMods cfg fs = (Ret (json (Mods mods)), fs) /\
    getMods cfg fs' = (Ret (json (Mods mods')), fs') /\
    forall e, e ∈ mods' <-> e ∈ mods /\ me_name e <> name.
Proof.
  intros Habs Hwf Hn Hd Hfile.
  set (K := key cfg (MODS_DIR cfg)) in *.
  set (fs' := delete (K ++ [name])%list fs).
  assert (Hl : fs_lookup cfg fs (Path.join [MODS_DIR cfg; name])
               = Some (File content mtime))
    by (rewrite fs_lookup_join_entry by assumption; exact Hfile).
  assert (Hd' : fs' !! K = Some (Dir ds dm)).
  { unfold fs'. rewrite lookup_delete_ne by apply snoc_ne_self. exact Hd. }
  eexists fs', _, _. split; [|split; [reflexivity|split; [|split]]].
  - unfold deleteMod.
    rewrite (bind_Ret _ _ _ _ _ (existsSync_Some _ _ _ _ Hl)). cbn [negb].
    unfold mbind, M_bind, unlinkSync. rewrite Hl.
    rewrite key_join_entry by assumption. reflexivity.
  - apply (getMods_of_directory cfg fs ds dm); assumption.
  - apply (getMods_of_directory cfg fs' ds dm);
      [assumption|apply wf_disk_delete, Hwf|exact Hd'].
  - intros e. rewrite !elem_of_mod_list. fold K. split.
    + intros (n & v & Hv & Hm & ->).
      apply lookup_delete_Some in Hv as [Hne Hv].
      split; [eauto|]. simpl. congruence.
    + intros [(n & v & Hv & Hm & ->) Hne]. simpl in Hne.
      exists n, v. split; [|auto].
      apply lookup_delete_Some. split; [|exact Hv].
      intros E. apply snoc_inj in E. congruence.
Qed.

Lemma deleteMod_then_getMods_witness :
  exists fs' mods',
    deleteMod default_config "coolmod.jar" cool_both
      = (Ret (json (Message "Deleted coolmod.jar")), fs') /\
    getMods default_config fs' = (Ret (json (Mods mods')), fs') /\
    forall e, e ∈ mods' -> me_name e <> "coolmod.jar".
Proof.
  assert (Hwf : wf_disk cool_both).
  { assert (E : cool_both
                = <[ ["app"; "mods"; "coolmod.jar"] := File "v2" 2 ]>
                  (<[ ["app"; "mods"; "coolmod.jar.disabled"] := File "v1" 1 ]>
                   empty_disk)) by (vm_compute; reflexivity).
    rewrite E. unfold empty_disk. solve_wf_disk. }
  assert (Hp : proper "coolmod.jar") by (repeat split; discriminate).
  destruct (deleteMod_then_getMods default_config cool_both "coolmod.jar" "v2" 2 4096 0
              eq_refl Hwf Hp eq_refl eq_refl)
    as (fs' & mods & mods' & Hdel & _ & _ & Hlist & Hin).
  exists fs', mods'. split; [exact Hdel|]. split; [exact Hlist|].
  intros e He. apply Hin in He. tauto.
Defined.

(** X19. In an absolute mod root that is a directory, on a disk of entry
    names, toggling an enabled mod file whose disabled name is not a
    directory answers 200, and the listing that follows shows the file under
    its disabled name, with its size and time stamp and enabled = false, and
    no entry under the old name. *)
Theorem toggleMod_then_getMods (cfg : config) (fs : filesystem)
    (base content : string) (mtime ds dm : Z) :
  let K := key cfg (MODS_DIR cfg) in
  let name := base +:+ ".jar" in
  let disabled := base +:+ ".jar.disabled" in
  Path.isAbsolute (MODS_DIR cfg) = true -> wf_disk fs ->
  proper name ->
  fs !! K = Some (Dir ds dm) ->
  fs !! (K ++ [name])%list = Some (File content mtime) ->
  (forall s m, fs !! (K ++ [disabled])%list <> Some (Dir s m)) ->
  exists fs1 mods,
    toggleMod cfg name fs = (Ret (json (Message ("Renamed to " +:+ disabled))), fs1) /\
    getMods cfg fs1 = (Ret (json (Mods mods)), fs1) /\
    {| me_name := disabled; me_size := Z.of_nat (String.length content);
       me_enabled := false; me_modified := mtime |} ∈ mods /\
    forall e, e ∈ mods -> me_name e <> name.
Proof.
  intros K name disabled Habs Hwf Hn HK Hfile Hnd.
  pose proof (proper_disabled base Hn) as Hd. fold disabled in Hd.
  assert (N1 : newName name = Some disabled).
  { unfold newName, name. rewrite jar_not_disabled, endsWith_app.
    rewrite append_assoc. reflexivity. }
  set (fs1 := <[(K ++ [disabled])%list := File content mtime]>
                (delete (K ++ [name])%list fs)).
  assert (Hne : (K ++ [disabled])%list <> (K ++ [name])%list).
  { intros E. apply snoc_inj in E. apply (f_equal String.length) in E.
    unfold disabled, name in E. rewrite !length_app_string in E. simpl in E. lia. }
  assert (HK1 : fs1 !! K = Some (Dir ds dm)).
  { unfold fs1. rewrite lookup_insert_ne by apply snoc_ne_self.
    rewrite lookup_delete_ne by apply snoc_ne_self. exact HK. }
  assert (Hwf1 : wf_disk fs1).
  { apply wf_disk_insert; [apply wf_disk_delete, Hwf|].
    apply Forall_app. split; [apply key_proper|]. constructor; [exact Hd|constructor]. }
  eexists fs1, _. split; [|split; [|split]].
  - apply (toggleMod_of_entry cfg fs name disabled content mtime ds dm); assumption.
  - apply (getMods_of_directory cfg fs1 ds dm); assumption.
  - apply elem_of_mod_list. exists disabled, (File content mtime).
    split; [apply lookup_insert_eq|]. split.
    + unfold mod_name, disabled. rewrite endsWith_app. apply orb_true_r.
    + unfold mod_record, disabled. rewrite disabled_not_enabled. reflexivity.
  - intros e He. apply elem_of_mod_list in He as (n & v & Hv & _ & ->). simpl.
    intros ->. fold K in Hv. unfold fs1 in Hv.
    rewrite lookup_insert_ne in Hv by exact Hne.
    rewrite lookup_delete_eq in Hv. discriminate.
Qed.

Lemma toggleMod_then_getMods_witness :
  exists fs1 mods,
    toggleMod default_config "coolmod.jar" cool_both
      = (Ret (json (Message "Renamed to coolmod.jar.disabled")), fs1) /\
    getMods default_config fs1 = (Ret (json (Mods mods)), fs1) /\
    {| me_name := "coolmod.jar.disabled"; me_size := 2;
       me_enabled := false; me_modified := 2 |} ∈ mods.
Proof.
  assert (Hwf : wf_disk cool_both).
  { assert (E : cool_both
                = <[ ["app"; "mods"; "coolmod.jar"] := File "v2" 2 ]>
                  (<[ ["app"; "mods"; "coolmod.jar.disabled"] := File "v1" 1 ]>
                   empty_disk)) by (vm_compute; reflexivity).
    rewrite E. unfold empty_disk. solve_wf_disk. }
  assert (Hp : proper "coolmod.jar") by (repeat split; discriminate).
  destruct (toggleMod_then_getMods default_config cool_both "coolmod" "v2" 2 4096 0
              eq_refl Hwf Hp eq_refl eq_refl)
    as (fs1 & mods & Htog & Hlist & Hin & _).
  - intros s m. vm_compute. discriminate.
  - exists fs1, mods. split; [exact Htog|]. split; [exact Hlist|exact Hin].
Defined.

Lemma deleteMod_removes_at_most_one_file_witness :
  run (deleteMod default_config "coolmod.jar") cool_both = cool_both \/
  exists content mtime,
    cool_both !! ["app"; "mods"; "coolmod.jar"] = Some (File content mtime) /\
    run (deleteMod default_config "coolmod.jar") cool_both
      = delete ["app"; "mods"; "coolmod.jar"] cool_both.
Proof.
  apply (deleteMod_removes_at_most_one_file default_config "coolmod.jar" cool_both
           (run (deleteMod default_config "coolmod.jar") cool_both)
           (Ret (answer (deleteMod default_config "coolmod.jar") cool_both))).
  vm_compute. reflexivity.
Defined.

(** ** Renaming a file *)






(** ** Restarting the server *)

Lemma find_first {A} (f : A -> bool) (pre post : list A) (x : A) :
  Forall (fun y => f y = false) pre -> f x = true ->
  List.find f (pre ++ x :: post)%list = Some x.
Proof.
  induction 1 as [|y pre Hy _ IH]; intros Hx; simpl.
  - rewrite Hx. reflexivity.
  - rewrite Hy. apply IH, Hx.
Qed.

Lemma find_none {A} (f : A -> bool) (l : list A) :
  Forall (fun y => f y = false) l -> List.find f l = None.
Proof.
  induction 1 as [|y l Hy _ IH]; simpl; [reflexivity|]. rewrite Hy. exact IH.
Qed.

(** X22. The restart handler never throws. When the listing of containers
    fails, or lists no container whose image name includes the marker, it
    answers 404 and restarts nothing; otherwise it restarts the first such
    container of the listing, and answers 200 when the restart succeeds and
    500 with the message of the failure when it does not. *)
Theorem postRestart_answers (listContainers : M (list container_info))
    (restart : string -> M unit) (fs : filesystem) :
  let not_found := status_json 404 (Error "Minecraft container not found") in
  (forall e fs1, listContainers fs = (Throw e, fs1) ->
     postRestart listContainers restart fs = (Ret not_found, fs1)) /\
  (forall containers fs1,
     listContainers fs = (Ret containers, fs1) ->
     Forall (fun c => is_mc_image c = false) containers ->
     postRestart listContainers restart fs = (Ret not_found, fs1)) /\
  (forall pre mc post fs1,
     listContainers fs = (Ret (pre ++ mc :: post)%list, fs1) ->
     Forall (fun c => is_mc_image c = false) pre ->
     is_mc_image mc = true ->
     (forall u fs2, restart (Id mc) fs1 = (Ret u, fs2) ->
        postRestart listContainers restart fs
          = (Ret (json (Message "Server restarting...")), fs2)) /\
     (forall e fs2, restart (Id mc) fs1 = (Throw e, fs2) ->
        postRestart listContainers restart fs
          = (Ret (status_json 500 (Error e)), fs2))) /\
  exists r fs', postRestart listContainers restart fs = (Ret r, fs').
Proof.
  intros not_found.
  unfold postRestart, findMcContainer, try_catch, mbind, M_bind, mret, M_ret.
  fold is_mc_image. change (fun c => includes (Image c) "itzg/minecraft-server")
    with is_mc_image.
  split; [|split; [|split]].
  - intros e fs1 ->. reflexivity.
  - intros containers fs1 -> Hnone. rewrite (find_none _ _ Hnone). reflexivity.
  - intros pre mc post fs1 -> Hpre Hmc. rewrite (find_first _ _ _ _ Hpre Hmc).
    split; [intros u fs2 ->|intros e fs2 ->]; reflexivity.
  - destruct (listContainers fs) as [[containers|e] fs1]; [|eauto].
    destruct (List.find is_mc_image containers) as [mc|]; [|eauto].
    destruct (restart (Id mc) fs1) as [[u|e] fs2]; eauto.
Qed.

Lemma postRestart_answers_witness :
  postRestart
    (mret [ {| Id := "a1"; Image := "nginx:latest" |};
            {| Id := "b2"; Image := "itzg/minecraft-server:java21" |};
            {| Id := "c3"; Image := "itzg/minecraft-server" |} ])
    (fun id => if String.eqb id "b2" then mret () else throw "wrong container")
    empty_disk
  = (Ret (json (Message "Server restarting...")), empty_disk).
Proof.
  destruct (postRestart_answers
              (mret [ {| Id := "a1"; Image := "nginx:latest" |};
                      {| Id := "b2"; Image := "itzg/minecraft-server:java21" |};
                      {| Id := "c3"; Image := "itzg/minecraft-server" |} ])
              (fun id => if String.eqb id "b2" then mret () else throw "wrong container")
              empty_disk) as (_ & _ & H & _).
  destruct (H [ {| Id := "a1"; Image := "nginx:latest" |} ]
              {| Id := "b2"; Image := "itzg/minecraft-server:java21" |}
              [ {| Id := "c3"; Image := "itzg/minecraft-server" |} ]
              empty_disk eq_refl) as [Hok _].
  - constructor; [reflexivity|constructor].
  - reflexivity.
  - apply (Hok () empty_disk). reflexivity.
Defined.

(** ** Uploading a batch of mods *)

Lemma abort_upload_throws (cfg : config) (stored : list string) (e : string)
    (fs : filesystem) :
  exists fs', abort_upload cfg stored e fs = (Throw e, fs').
Proof.
  revert fs. induction stored as [|p stored IH]; intros fs; simpl.
  - eexists. reflexivity.
  - unfold mbind, M_bind, try_catch.
    destruct (unlinkSync cfg p fs) as [[u|e'] fs1]; apply IH.
Qed.

(** What a batch that goes through leaves: the files returned are those that
    were sent, each passed the filter, there were no more than the count
    allows, and each is on the disk under its name, written at [now]. *)
Lemma upload_array_mods_Ret (cfg : config) (now : Z) (files : list upload_file) :
  forall (remaining : nat) (stored : list string) (accepted : list upload_file)
         (fs fs' : filesystem) (l : list upload_file),
    upload_array cfg (modFileFilter) (modDestination cfg) now remaining files
      stored accepted fs = (Ret l, fs') ->
    l = (List.rev accepted ++ files)%list /\
    (length files <= remaining)%nat /\
    Forall (fun f => modFileFilter f = Ret true) files /\
    (forall k c, fs !! k = Some (File c now) -> exists c', fs' !! k = Some (File c' now)) /\
    Forall (fun f => exists c',
              fs_lookup cfg fs' (Path.join [MODS_DIR cfg; originalname f])
                = Some (File c' now)) files.
Proof.
  induction files as [|f files IH]; intros remaining stored accepted fs fs' l Hrun.
  - destruct remaining; simpl in Hrun; unfold mret, M_ret in Hrun;
      injection Hrun as <- <-;
      rewrite app_nil_r;
      (split; [reflexivity|]); (split; [simpl; lia|]);
      (split; [constructor|]); (split; [eauto|constructor]).
  - destruct remaining as [|remaining]; simpl in Hrun.
    { destruct (abort_upload_throws cfg stored "Unexpected field" fs) as [? E].
      rewrite E in Hrun. discriminate. }
    destruct (modFileFilter f) as [[|]|e] eqn:Hf.
    + unfold mbind at 1, M_bind at 1, modDestination at 1, mret at 1, M_ret at 1 in Hrun.
      unfold mbind at 1, M_bind at 1 in Hrun.
      destruct (writeFile cfg now (Path.join [MODS_DIR cfg; originalname f]) (data f) fs)
        as [[u|e] fs1] eqn:Hw.
      * unfold mret at 1, M_ret at 1 in Hrun.
        destruct (IH _ _ _ _ _ _ Hrun) as (-> & Hlen & Hall & Hkeep & Hdisk).
        destruct (writeFile_Ret _ _ _ _ _ _ _ Hw) as [-> Hl].
        pose proof Hw as Hg. unfold writeFile in Hg.
        destruct (String.eqb (Path.join [MODS_DIR cfg; originalname f]) "") eqn:E1;
          [discriminate|].
        destruct (endsWith (Path.join [MODS_DIR cfg; originalname f]) "/") eqn:E2;
          [discriminate|]. clear Hg.
        split; [simpl; rewrite <- app_assoc; reflexivity|].
        split; [simpl; lia|].
        split; [constructor; assumption|].
        split.
        -- intros k c Hk.
           destruct (decide (k = key cfg (Path.join [MODS_DIR cfg; originalname f])))
             as [->|Hne].
           ++ eapply Hkeep. apply lookup_insert_eq.
           ++ eapply Hkeep. rewrite lookup_insert_ne by congruence. exact Hk.
        -- constructor; [|exact Hdisk].
           destruct (Hkeep _ _ (fs_lookup_key _ _ _ _ Hl)) as [c' Hc'].
           exists c'. unfold fs_lookup. rewrite E1, Hc', E2. reflexivity.
      * destruct (abort_upload_throws cfg stored e fs1) as [? E].
        rewrite E in Hrun. discriminate.
    + unfold modFileFilter in Hf. destruct (String.eqb _ _); discriminate.
    + destruct (abort_upload_throws cfg stored e fs) as [? E].
      rewrite E in Hrun. discriminate.
Qed.

(** X23. When the upload of a batch of mods answers 200, the batch was not
    empty and had at most 20 files, every file of it had the extension
    [.jar] up to letter case, the message counts exactly the files sent, and
    each of them is a file of the disk under its joined path afterwards. *)
Theorem postMods_accepts_whole_batch (cfg : config) (now : Z)
    (files : list upload_file) (fs fs' : filesystem) (r : response) :
  postMods cfg now files fs = (Ret r, fs') ->
  res_status r = 200 ->
  files <> [] /\
  (length files <= 20)%nat /\
  Forall (fun f => toLowerCase (Path.extname (originalname f)) = ".jar") files /\
  r = json (Message ("Uploaded " +:+ pretty (length files) +:+ " mod(s)")) /\
  Forall (fun f => exists content,
            fs_lookup cfg fs' (Path.join [MODS_DIR cfg; originalname f])
              = Some (File content now)) files.
Proof.
  intros Hrun H200. unfold postMods in Hrun.
  unfold mbind, M_bind in Hrun.
  destruct (upload_array cfg modFileFilter (modDestination cfg) now 20 files [] [] fs)
    as [[l|e] fs1] eqn:Hup; [|discriminate].
  destruct (upload_array_mods_Ret _ _ _ _ _ _ _ _ _ Hup) as (-> & Hlen & Hall & _ & Hdisk).
  change (List.rev [] ++ files)%list with files in Hrun.
  unfold mret, M_ret in Hrun.
  destruct (length files =? 0)%nat eqn:E0.
  { injection Hrun as <- _. discriminate. }
  injection Hrun as <- <-.
  split; [intros ->; discriminate|].
  split; [exact Hlen|].
  split; [|split; [reflexivity|exact Hdisk]].
  eapply Forall_impl; [exact Hall|]. intros f Hf. unfold modFileFilter in Hf.
  destruct (String.eqb_spec (toLowerCase (Path.extname (originalname f))) ".jar");
    [assumption|discriminate].
Qed.

Lemma postMods_accepts_whole_batch_witness :
  answer (postMods default_config 3
            [coolmod "v1"; {| originalname := "Other.JAR"; data := "o" |}]) empty_disk
    = json (Message "Uploaded 2 mod(s)") /\
  Forall (fun f => exists content,
            fs_lookup default_config
              (run (postMods default_config 3
                      [coolmod "v1"; {| originalname := "Other.JAR"; data := "o" |}])
                   empty_disk)
              (Path.join [MODS_DIR default_config; originalname f])
              = Some (File content 3))
         [coolmod "v1"; {| originalname := "Other.JAR"; data := "o" |}].
Proof.
  destruct (postMods_accepts_whole_batch default_config 3
              [coolmod "v1"; {| originalname := "Other.JAR"; data := "o" |}]
              empty_disk
              (run (postMods default_config 3
                      [coolmod "v1"; {| originalname := "Other.JAR"; data := "o" |}])
                   empty_disk)
              (answer (postMods default_config 3
                         [coolmod "v1"; {| originalname := "Other.JAR"; data := "o" |}])
                      empty_disk))
    as (_ & _ & _ & Hr & Hdisk).
  - vm_compute. reflexivity.
  - reflexivity.
  - split; [exact Hr|exact Hdisk].
Defined.
